(** * analyzer/clang.py: the wrapper around the Clang executable

    A shallow embedding of [get_arguments], [_get_active_checkers] and
    [get_checkers] of [analyzer/clang.py], together with the parts of the
    Python runtime they rest on: text streams read line by line, [str.strip],
    the [re] module (the fragment of the pattern language that the patterns
    of the module are written in) and [shlex.split].

    Characters are the code points below 256, one [ascii] each.  The output
    of a child process is the text that the universal-newlines stream
    delivers. *)

From Stdlib Require Import ZArith Ascii String List Bool Lia.
From stdpp Require Import base option list strings gmap.

Local Open Scope Z_scope.
Local Open Scope stdpp_scope.

(** ** Characters and strings *)

Module Str.

Definition newline : ascii := "010"%char.
Definition dquote : ascii := "034"%char.
Definition squote : ascii := "039"%char.
Definition backslash : ascii := "092"%char.

Definition ascii_eqb (a b : ascii) : bool := bool_decide (a = b).

(** [str.isspace] of one character, which is also what [\s] matches in a
    [str] pattern: Python's white space among the code points below 256. *)
Definition isspace (c : ascii) : bool :=
  match c with
  | "009" | "010" | "011" | "012" | "013"
  | "028" | "029" | "030" | "031" | " " | "133" | "160" => true
  | _ => false
  end%char.

Definition isalnum_ascii (c : ascii) : bool :=
  let n := nat_of_ascii c in
  (Nat.leb 48 n && Nat.leb n 57) || (Nat.leb 65 n && Nat.leb n 90)
  || (Nat.leb 97 n && Nat.leb n 122).

Definition isdigit_ascii (c : ascii) : bool :=
  let n := nat_of_ascii c in Nat.leb 48 n && Nat.leb n 57.

Fixpoint str_all (p : ascii → bool) (s : string) : bool :=
  match s with
  | "" => true
  | String c s' => p c && str_all p s'
  end.

(** [s.lstrip()], [s.rstrip()] and [s.strip()] with no argument. *)
Fixpoint lstrip (s : string) : string :=
  match s with
  | "" => ""
  | String c s' => if isspace c then lstrip s' else s
  end.

Fixpoint rstrip (s : string) : string :=
  match s with
  | "" => ""
  | String c s' =>
      match rstrip s' with
      | "" => if isspace c then "" else String c ""
      | r => String c r
      end
  end.

Definition strip (s : string) : string := lstrip (rstrip s).

(** [s2.startswith(s1)]. *)
Fixpoint startswith (s1 s2 : string) : bool :=
  match s1, s2 with
  | "", _ => true
  | String a s1', String b s2' => ascii_eqb a b && startswith s1' s2'
  | String _ _, "" => false
  end.

(** The first [n] characters of [s]. *)
Fixpoint str_take (n : nat) (s : string) : string :=
  match n, s with
  | S n', String c s' => String c (str_take n' s')
  | _, _ => ""
  end.

Definition no_newline (s : string) : bool :=
  str_all (λ c, negb (ascii_eqb c newline)) s.

Definition not_space (c : ascii) : bool := negb (isspace c).

Definition not_dquote (c : ascii) : bool := negb (ascii_eqb c dquote).

(** Iterating a text stream: the lines of the text, each with the newline
    that ends it; only the last line can lack one. *)
Fixpoint readlines (s : string) : list string :=
  match s with
  | "" => []
  | String c s' =>
      if ascii_eqb c newline then String c "" :: readlines s'
      else match readlines s' with
           | [] => [String c ""]
           | l :: ls => String c l :: ls
           end
  end.

End Str.

(** ** The [re] module

    Patterns are compiled from their text, as [re.match(pattern, string)]
    does.  The fragment modelled: literal characters, [.], [^], [$],
    [\s], [\S], a backslash before a character that is no ASCII letter or
    digit, sets [[...]] and [[^...]] of such items, groups [(...)],
    [(?:...)] and [(?P<name>...)], alternation, and the greedy [*], [+], [?]
    after a single-character item.  [re_compile] gives [None] for every
    other pattern text: those that [re] rejects, and those outside the
    fragment.  Every pattern written in [clang.py] is inside it. *)

Module Re.
Import Str.

Inductive citem : Type :=
| ILit (c : ascii)
| ISpace
| INotSpace.

(** What one character can be asked to be. *)
Inductive cls : Type :=
| CItem (i : citem)
| CDot
| CSet (neg : bool) (items : list citem).

Inductive regex : Type :=
| Eps
| Chr (c : cls)
| Star (c : cls)
| Bol
| Eol
| Cat (r1 r2 : regex)
| Alt (r1 r2 : regex)
| Group (i : nat) (r : regex).

Definition item_matches (i : citem) (a : ascii) : bool :=
  match i with
  | ILit c => ascii_eqb c a
  | ISpace => isspace a
  | INotSpace => negb (isspace a)
  end.

(** [.] is every character but the newline (no DOTALL flag). *)
Definition cls_matches (c : cls) (a : ascii) : bool :=
  match c with
  | CItem i => item_matches i a
  | CDot => negb (ascii_eqb a newline)
  | CSet neg items => xorb neg (existsb (λ i, item_matches i a) items)
  end.

(** *** Reading the pattern text *)

Inductive token : Type :=
| TAtom (c : cls)
| TStar | TPlus | TQuest
| TBol | TEol | TBar
| TOpen (capturing : bool) (name : option string)
| TClose.

Inductive lstate : Type :=
| LNormal
| LEscape
| LClassOpen
| LClass (neg : bool) (items : list citem)
| LClassEscape (neg : bool) (items : list citem)
| LGroupOpen
| LGroupQ
| LGroupP
| LGroupName (name : string).

(** A backslash and the character after it. *)
Definition escape_item (c : ascii) : option citem :=
  if ascii_eqb c "s" then Some ISpace
  else if ascii_eqb c "S" then Some INotSpace
  else if isalnum_ascii c then None
  else Some (ILit c).

(** The characters with a meaning of their own outside a set. *)
Definition is_special (c : ascii) : bool :=
  existsb (ascii_eqb c)
    [ "."; "^"; "$"; "*"; "+"; "?"; "{"; "}"; "["; "]"; "\"; "|"; "("; ")" ]%char.

(** One character read outside sets, escapes and group headers: the token
    it makes, if any, and where reading goes on. *)
Definition normal_step (c : ascii) : option (list token * lstate) :=
  if ascii_eqb c "\" then Some ([], LEscape)
  else if ascii_eqb c "[" then Some ([], LClassOpen)
  else if ascii_eqb c "(" then Some ([], LGroupOpen)
  else if ascii_eqb c ")" then Some ([TClose], LNormal)
  else if ascii_eqb c "|" then Some ([TBar], LNormal)
  else if ascii_eqb c "." then Some ([TAtom CDot], LNormal)
  else if ascii_eqb c "^" then Some ([TBol], LNormal)
  else if ascii_eqb c "$" then Some ([TEol], LNormal)
  else if ascii_eqb c "*" then Some ([TStar], LNormal)
  else if ascii_eqb c "+" then Some ([TPlus], LNormal)
  else if ascii_eqb c "?" then Some ([TQuest], LNormal)
  else if is_special c then None
  else Some ([TAtom (CItem (ILit c))], LNormal).

(** One character read inside a set that has [items] so far. *)
Definition class_step (neg : bool) (items : list citem) (c : ascii)
  : option (list token * lstate) :=
  if ascii_eqb c "]" then
    match items with
    | [] => None
    | _ => Some ([TAtom (CSet neg items)], LNormal)
    end
  else if ascii_eqb c "\" then Some ([], LClassEscape neg items)
  else if ascii_eqb c "[" || ascii_eqb c "-" then None
  else Some ([], LClass neg (items ++ [ILit c])).

Definition name_char (c : ascii) : bool :=
  isalnum_ascii c || ascii_eqb c "_".

Definition lex_step (st : lstate) (c : ascii) : option (list token * lstate) :=
  match st with
  | LNormal => normal_step c
  | LEscape => i ← escape_item c; Some ([TAtom (CItem i)], LNormal)
  | LClassOpen =>
      if ascii_eqb c "^" then Some ([], LClass true [])
      else class_step false [] c
  | LClass neg items => class_step neg items c
  | LClassEscape neg items =>
      i ← escape_item c; Some ([], LClass neg (items ++ [i]))
  | LGroupOpen =>
      if ascii_eqb c "?" then Some ([], LGroupQ)
      else '(ts, st') ← normal_step c; Some (TOpen true None :: ts, st')
  | LGroupQ =>
      if ascii_eqb c ":" then Some ([TOpen false None], LNormal)
      else if ascii_eqb c "P" then Some ([], LGroupP)
      else None
  | LGroupP => if ascii_eqb c "<" then Some ([], LGroupName "") else None
  | LGroupName name =>
      if ascii_eqb c ">" then
        match name with
        | "" => None
        | String c0 _ =>
            if isdigit_ascii c0 then None
            else Some ([TOpen true (Some name)], LNormal)
        end
      else if name_char c then Some ([], LGroupName (name +:+ String c ""))
      else None
  end.

Fixpoint lex (st : lstate) (s : string) : option (list token) :=
  match s with
  | "" => match st with LNormal => Some [] | _ => None end
  | String c s' =>
      '(ts, st') ← lex_step st c;
      rest ← lex st' s';
      Some (ts ++ rest)
  end.

(** *** Building the expression *)

(** An open group while its inside is read: its number if it captures,
    the alternatives closed by [|] so far, and the items of the current
    alternative, both latest first. *)
Record frame : Type := Frame {
  f_group : option nat;
  f_alts : list regex;
  f_seq : list regex
}.

Definition seq_of (items : list regex) : regex :=
  fold_left (λ acc x, Cat x acc) items Eps.

Definition alt_of (alts : list regex) (last : regex) : regex :=
  fold_left (λ acc x, Alt x acc) alts last.

Definition close_frame (f : frame) : regex :=
  let r := alt_of (f_alts f) (seq_of (f_seq f)) in
  match f_group f with
  | Some i => Group i r
  | None => r
  end.

Definition push_item (r : regex) (f : frame) : frame :=
  Frame (f_group f) (f_alts f) (r :: f_seq f).

(** A repetition applies to the item before it, which has to be a single
    character without a repetition of its own. *)
Definition repeat (wrap : cls → regex) (f : frame) : option frame :=
  match f_seq f with
  | Chr c :: items => Some (Frame (f_group f) (f_alts f) (wrap c :: items))
  | _ => None
  end.

(** The number of the group called [name]. *)
Fixpoint group_index (ns : list (string * nat)) (name : string) : option nat :=
  match ns with
  | [] => None
  | (n, i) :: ns' => if bool_decide (n = name) then Some i else group_index ns' name
  end.

Record pstate : Type := PState {
  p_top : frame;
  p_stack : list frame;
  p_next : nat;
  p_names : list (string * nat)
}.

Definition with_top (f : frame) (p : pstate) : pstate :=
  PState f (p_stack p) (p_next p) (p_names p).

Definition parse_step (p : pstate) (t : token) : option pstate :=
  match t with
  | TAtom c => Some (with_top (push_item (Chr c) (p_top p)) p)
  | TBol => Some (with_top (push_item Bol (p_top p)) p)
  | TEol => Some (with_top (push_item Eol (p_top p)) p)
  | TStar => f ← repeat Star (p_top p); Some (with_top f p)
  | TPlus => f ← repeat (λ c, Cat (Chr c) (Star c)) (p_top p); Some (with_top f p)
  | TQuest => f ← repeat (λ c, Alt (Chr c) Eps) (p_top p); Some (with_top f p)
  | TBar =>
      let f := p_top p in
      Some (with_top (Frame (f_group f) (seq_of (f_seq f) :: f_alts f) []) p)
  | TOpen capturing name =>
      let i := p_next p in
      let names :=
        match name with
        | Some n =>
            if bool_decide (is_Some (group_index (p_names p) n)) then None
            else Some ((n, i) :: p_names p)
        | None => Some (p_names p)
        end in
      names ← names;
      if capturing
      then Some (PState (Frame (Some i) [] []) (p_top p :: p_stack p) (S i) names)
      else Some (PState (Frame None [] []) (p_top p :: p_stack p) i names)
  | TClose =>
      match p_stack p with
      | [] => None
      | f :: stack =>
          Some (PState (push_item (close_frame (p_top p)) f) stack
                  (p_next p) (p_names p))
      end
  end.

Fixpoint parse (p : pstate) (ts : list token) : option pstate :=
  match ts with
  | [] => Some p
  | t :: ts' => p' ← parse_step p t; parse p' ts'
  end.

Record pattern : Type := Pattern {
  ast : regex;
  names : list (string * nat)
}.

(** [re.compile(text)]; group numbers start at 1. *)
Definition re_compile (text : string) : option pattern :=
  ts ← lex LNormal text;
  p ← parse (PState (Frame None [] []) [] 1%nat []) ts;
  match p_stack p with
  | [] => Some (Pattern (close_frame (p_top p)) (p_names p))
  | _ => None
  end.

(** *** Matching

    A backtracking matcher, the first way that succeeds wins: the left
    alternative before the right one, the longest repetition before the
    shorter ones.  The groups matched so far are kept latest first. *)

Definition groups : Type := list (nat * string).

(** [$] without MULTILINE: at the end of the string, and also just before
    a newline that is the last character. *)
Definition at_eol (s : string) : bool :=
  match s with
  | "" => true
  | String c "" => ascii_eqb c newline
  | _ => false
  end.

Fixpoint star_run (c : cls) (s : string) (k : string → option groups)
  : option groups :=
  match s with
  | String a s' =>
      if cls_matches c a then
        match star_run c s' k with
        | Some g => Some g
        | None => k s
        end
      else k s
  | "" => k s
  end.

(** What was read between the rest [s] and the later rest [s']. *)
Definition consumed (s s' : string) : string :=
  str_take (String.length s - String.length s') s.

(** [n0] is the length of the whole subject: [^] holds where nothing has
    been read yet. *)
Fixpoint exec (n0 : nat) (r : regex) (s : string) (g : groups)
    (k : string → groups → option groups) : option groups :=
  match r with
  | Eps => k s g
  | Chr c =>
      match s with
      | String a s' => if cls_matches c a then k s' g else None
      | "" => None
      end
  | Star c => star_run c s (λ s', k s' g)
  | Bol => if Nat.eqb (String.length s) n0 then k s g else None
  | Eol => if at_eol s then k s g else None
  | Cat r1 r2 => exec n0 r1 s g (λ s' g', exec n0 r2 s' g' k)
  | Alt r1 r2 =>
      match exec n0 r1 s g k with
      | Some g' => Some g'
      | None => exec n0 r2 s g k
      end
  | Group i r1 => exec n0 r1 s g (λ s' g', k s' ((i, consumed s s') :: g'))
  end.

(** [pattern.match(subject)]: a match that starts at the first character,
    as its groups, or [None]. *)
Definition re_match (p : pattern) (subject : string) : option groups :=
  exec (String.length subject) (ast p) subject [] (λ _ g, Some g).

(** [m.group(i)] of a group that took part in the match. *)
Fixpoint group (m : groups) (i : nat) : string :=
  match m with
  | [] => ""
  | (j, v) :: m' => if Nat.eqb j i then v else group m' i
  end.

(** [m.groupdict()[name]]. *)
Definition groupdict (p : pattern) (m : groups) (name : string) : string :=
  match group_index (names p) name with
  | Some i => group m i
  | None => ""
  end.

(** A pattern written in the source as a literal: its compiled form.  The
    type is [pattern] exactly when the text compiles. *)
Definition literal (text : string)
  : match re_compile text with Some _ => pattern | None => unit end :=
  match re_compile text as o
    return match o with Some _ => pattern | None => unit end with
  | Some p => p
  | None => tt
  end.

(** Two notions for reasoning about [exec]: a repetition of [c] cannot go
    on into [s], and the expression for a literal text followed by [r]. *)
Definition stops (c : cls) (s : string) : Prop :=
  match s with
  | "" => True
  | String a _ => cls_matches c a = false
  end.

Fixpoint lits (w : string) (r : regex) : regex :=
  match w with
  | "" => r
  | String c w' => Cat (Chr (CItem (ILit c))) (lits w' r)
  end.

End Re.

(** ** [shlex.split]

    [shlex.split(s)] is the token stream of a [shlex] in POSIX mode with
    [whitespace_split] set and no comment characters; [tokens] follows
    [shlex.read_token] character by character.  [None] is the [ValueError]
    of an unclosed quotation or a backslash at the very end. *)

Module Shlex.
Import Str.

Inductive state : Type :=
| SBlank                               (* [' '], between tokens *)
| SWord                                (* ['a'], inside a token *)
| SQuote (q : ascii)                   (* inside a quotation opened by [q] *)
| SEscape (escapedstate : option ascii).
    (* after the backslash; back to the quotation, or to ['a'] for [None] *)

Definition whitespace (c : ascii) : bool :=
  existsb (ascii_eqb c) [" "; "009"; "013"; "010"]%char.

Definition quotes (c : ascii) : bool :=
  ascii_eqb c squote || ascii_eqb c dquote.

Definition escape (c : ascii) : bool := ascii_eqb c backslash.

Definition escapedquotes (c : ascii) : bool := ascii_eqb c dquote.

(** The end of [read_token]: an empty result that was not quoted is no
    token. *)
Definition emit (token : string) (quoted : bool) (rest : list string)
  : list string :=
  match token with
  | "" => if quoted then token :: rest else rest
  | _ => token :: rest
  end.

Definition add (token : string) (c : ascii) : string :=
  token +:+ String c "".

Fixpoint tokens (s : string) (st : state) (token : string) (quoted : bool)
  : option (list string) :=
  match s with
  | "" =>
      match st with
      | SBlank | SWord => Some (emit token quoted [])
      | SQuote _ | SEscape _ => None
      end
  | String c s' =>
      match st with
      | SBlank =>
          if whitespace c then emit token quoted <$> tokens s' SBlank "" false
          else if escape c then tokens s' (SEscape None) token quoted
          else if quotes c then tokens s' (SQuote c) token quoted
          else tokens s' SWord (String c "") quoted
      | SQuote q =>
          if ascii_eqb c q then tokens s' SWord token true
          else if escape c && escapedquotes q
          then tokens s' (SEscape (Some q)) token true
          else tokens s' (SQuote q) (add token c) true
      | SEscape escapedstate =>
          let token :=
            match escapedstate with
            | Some q =>
                if negb (ascii_eqb c backslash) && negb (ascii_eqb c q)
                then add token backslash else token
            | None => token
            end in
          tokens s' (from_option SQuote SWord escapedstate) (add token c) quoted
      | SWord =>
          if whitespace c then emit token quoted <$> tokens s' SBlank "" false
          else if quotes c then tokens s' (SQuote c) token quoted
          else if escape c then tokens s' (SEscape None) token quoted
          else tokens s' SWord (add token c) quoted
      end
  end.

Definition split (s : string) : option (list string) :=
  tokens s SBlank "" false.

End Shlex.

(** ** Exceptions, list objects and child processes *)

Module Py.

(** The exceptions that can leave the functions of [clang.py], one for
    each [raise] of the module and one for each library call that can
    fail. *)
Inductive error : Type :=
| EmptyOutput                            (* [lastline]: no line was read *)
| ExecutionFailed (line : string)        (* [get_arguments]: exit status not 0 *)
| CompilerReportedError (line : string)  (* [get_arguments]: an error line *)
| CatalogUnavailable                     (* [get_checkers]: no catalog *)
| ShlexError                             (* [ValueError] of [shlex.split] *)
| ReError.                               (* [re.match] on a pattern text that
                                            [Re.re_compile] does not take *)

(** The argument of [Exception(...)] at each [raise] of the module. *)
Definition message (e : error) : string :=
  match e with
  | EmptyOutput => "output not found"
  | ExecutionFailed line => line
  | CompilerReportedError line => line
  | CatalogUnavailable => "Could not query Clang for available checkers."
  | ShlexError => ""
  | ReError => ""
  end.

Inductive result (A : Type) : Type :=
| Ok (a : A)
| Raise (e : error).
Global Arguments Ok {A} a.
Global Arguments Raise {A} e.

Global Instance result_ret : MRet result := λ A a, Ok a.
Global Instance result_bind : MBind result := λ A B f r,
  match r with
  | Ok a => f a
  | Raise e => Raise e
  end.

Global Instance result_fmap : FMap result := λ A B f r,
  match r with
  | Ok a => Ok (f a)
  | Raise e => Raise e
  end.

(** A child process as [subprocess.Popen] starts it, and what it leaves:
    the text on its standard output (with standard error folded in) and
    its exit status. *)
Record call : Type := Call {
  argv : list string;
  cwd : option string
}.

Record child : Type := Child {
  stdout : string;
  returncode : Z
}.

(** List objects live in a store and are passed by reference; the
    processes started so far are recorded in order. *)
Definition loc : Type := nat.

Record world : Type := World {
  heap : list (list string);
  spawned : list call
}.

Definition M (A : Type) : Type := world → result A * world.

Global Instance M_ret : MRet M := λ A a w, (Ok a, w).
Global Instance M_bind : MBind M := λ A B f m w,
  match m w with
  | (Ok a, w') => f a w'
  | (Raise e, w') => (Raise e, w')
  end.

Definition raise {A} (e : error) : M A := λ w, (Raise e, w).

Definition lift {A} (r : result A) : M A := λ w, (r, w).

(** [[...]]: a new list object. *)
Definition new_list (l : list string) : M loc := λ w,
  (Ok (length (heap w)), World (heap w ++ [l]) (spawned w)).

Definition deref (w : world) (r : loc) : list string :=
  default [] (heap w !! r).

Definition read_list (r : loc) : M (list string) := λ w, (Ok (deref w r), w).

(** [l[:]]: a new list object with the same items. *)
Definition copy_list (r : loc) : M loc :=
  l ← read_list r; new_list l.

(** [l.insert(i, x)] for [0 <= i]: in place; at the end when the list is
    shorter than [i]. *)
Definition insert_at (i : nat) (x : string) (l : list string) : list string :=
  take i l ++ x :: drop i l.

Definition list_insert (r : loc) (i : nat) (x : string) : M unit := λ w,
  (Ok (), World (alter (insert_at i x) r (heap w)) (spawned w)).

(** [for x in xs: ...] with a body that can raise, collecting results. *)
Fixpoint for_each {A B} (f : A → M B) (xs : list A) : M (list B) :=
  match xs with
  | [] => mret []
  | x :: xs' => y ← f x; ys ← for_each f xs'; mret (y :: ys)
  end.

End Py.

(** ** [analyzer/clang.py] *)

Module Clang.
Import Str Re Py.

(** The patterns of the module, compiled from their text. *)

(** The pattern of [strip_quotes]: [^], a double quote, a group of any
    number of characters other than the double quote, a double quote,
    [$]; each double quote is written with a backslash before it. *)
Definition quoted_pattern : pattern := Eval vm_compute in
  literal ("^\" +:+ String dquote "([^\" +:+ String dquote "]*)\"
             +:+ String dquote "$").

(** The error line of [get_arguments]. *)
Definition error_pattern : pattern := Eval vm_compute in
  literal "^clang: error:".

(** The pattern of [checkers] in [_get_active_checkers]. *)
Definition checker_pattern : pattern := Eval vm_compute in
  literal "^-analyzer-checker=(.*)$".

(** The header line of [parse_checkers]. *)
Definition header_pattern : pattern := Eval vm_compute in
  literal "^CHECKERS:".

(** The pattern of the first branch of [parse_checkers]. *)
Definition indent_pattern : pattern := Eval vm_compute in
  literal "^\s\s\S".

(** The pattern of the second branch of [parse_checkers]. *)
Definition name_pattern : pattern := Eval vm_compute in
  literal "^\s\s\S+$".

(** The pattern of the last branch of [parse_checkers]. *)
Definition entry_pattern : pattern := Eval vm_compute in
  literal "^\s\s(?P<key>\S*)\s*(?P<value>.*)".

(** [if re.match(...)]: a match object is true, [None] is false. *)
Definition matches (p : pattern) (subject : string) : bool :=
  bool_decide (is_Some (re_match p subject)).

(** [lastline] of [get_arguments]. *)
Definition lastline (stream : list string) : M string :=
  match fold_left (λ _ line, Some line) stream None with
  | None => raise EmptyOutput
  | Some last => mret last
  end.

(** [strip_quotes] of [get_arguments]. *)
Definition strip_quotes (quoted : string) : string :=
  match re_match quoted_pattern quoted with
  | Some m => group m 1
  | None => quoted
  end.

(** [for k, v in parse_checkers(stream)]: the first loop of
    [parse_checkers] reads the stream up to the header line and leaves the
    rest to the second. *)
Fixpoint find_header (stream : list string) : list string :=
  match stream with
  | [] => []
  | line :: rest =>
      if matches header_pattern line then rest else find_header rest
  end.

(** [if state]: [None] and the empty string are false. *)
Definition truthy (state : option string) : bool :=
  match state with
  | Some (String _ _) => true
  | _ => false
  end.

Fixpoint find_entries (state : option string) (stream : list string)
  : list (string * string) :=
  match stream with
  | [] => []
  | line :: rest =>
      if truthy state && negb (matches indent_pattern line) then
        (default "" state, strip line) :: find_entries None rest
      else if matches name_pattern (rstrip line) then
        find_entries (Some (strip line)) rest
      else
        match re_match entry_pattern (rstrip line) with
        | Some current =>
            (groupdict entry_pattern current "key",
             groupdict entry_pattern current "value")
              :: find_entries state rest
        | None => find_entries state rest
        end
  end.

(** [parse_checkers] of [get_checkers], as the list of the pairs it
    yields. *)
Definition parse_checkers (stream : list string) : list (string * string) :=
  find_entries None (find_header stream).

(** [any(re.match(r'^' + a + r'(\.|$)', entry) for a in actives)], the
    names taken in the order [actives] gives them. *)
Fixpoint any_match (actives : list string) (entry : string) : result bool :=
  match actives with
  | [] => Ok false
  | a :: rest =>
      match re_compile ("^" +:+ a +:+ "(\.|$)") with
      | None => Raise ReError
      | Some p => if matches p entry then Ok true else any_match rest entry
      end
  end.

(** [is_active] of [get_checkers].  Python leaves the order in which a
    set is iterated open; [elements] fixes one. *)
Definition is_active (actives : gset string) (entry : string) : result bool :=
  any_match (elements actives) entry.

(** [{k: (v, is_active(actives, k)) for k, v in ...}], a later pair
    replacing an earlier one of the same name. *)
Fixpoint catalog_from (actives : gset string) (pairs : list (string * string))
    (checkers : gmap string (string * bool))
  : result (gmap string (string * bool)) :=
  match pairs with
  | [] => Ok checkers
  | (k, v) :: rest =>
      active ← is_active actives k;
      catalog_from actives rest (<[k := (v, active)]> checkers)
  end.

Definition catalog (actives : gset string) (stream : list string)
  : result (gmap string (string * bool)) :=
  catalog_from actives (parse_checkers stream) ∅.

(** [functools.reduce(lambda acc, x: acc + fragment(x), plugins, [])] *)
Definition load_flags (fragment : string → list string)
    (plugins : list string) : list string :=
  fold_left (λ acc x, acc ++ fragment x) plugins [].

Definition languages : list string :=
  ["c"; "c++"; "objective-c"; "objective-c++"].

(** [pattern.match(arg).group(1)] for an [arg] with [pattern.match(arg)]. *)
Definition checker_of (arg : string) : option string :=
  m ← re_match checker_pattern arg; Some (group m 1).

(** Modelled from the spec: the decorator [trace] of [analyzer.decorators],
    a module that is not among the sources.  The specification has it as
    call tracing, a logging concern outside the contract: the decorated
    function is the function. *)
Definition trace {A : Type} (f : A) : A := f.

Section WithProcesses.

(** What a child process prints and how it exits, for each way of
    starting one. *)
Variable run : call → child.

(** [subprocess.Popen(cmd, cwd=cwd, ...)] and, once its output has been
    read, [child.wait()].  Starting the process is taken to succeed. *)
Definition Popen (cmd : list string) (cwd : option string) : M child :=
  λ w, (Ok (run (Call cmd cwd)),
        World (heap w) (spawned w ++ [Call cmd cwd])).

(** [get_arguments]; the [logging.debug] call writes a log record and
    nothing else, and is left out, here and in [get_checkers]. *)
Definition get_arguments : string → loc → M (list string) :=
  trace (λ cwd command,
  cmd ← copy_list command;
  _ ← list_insert cmd 1 "-###";
  args ← read_list cmd;
  child ← Popen args (Some cwd);
  line ← lastline (readlines (stdout child));
  if (returncode child =? 0)%Z then
    if matches error_pattern line then raise (CompilerReportedError line)
    else
      match Shlex.split line with
      | Some xs => mret (strip_quotes <$> xs)
      | None => raise ShlexError
      end
  else raise (ExecutionFailed line)).

(** What [get_arguments] gives for a command, whatever else the store
    holds. *)
Definition reconstruct (cwd : string) (command : list string)
  : result (list string) :=
  (get_arguments cwd 0%nat (World [command] [])).1.

(** [checkers] of [_get_active_checkers]: the command is built and
    reconstructed when the generator is made, its tokens are filtered as
    they are read. *)
Definition checkers (clang : string) (language : string)
    (load : list string) : M (list string) :=
  cmd ← new_list ([clang; "--analyze"] ++ load ++ ["-x"; language; "-"]);
  args ← get_arguments "." cmd;
  mret (omap checker_of args).

(** [_get_active_checkers]: [chain.from_iterable] takes the languages one
    after the other, each generator to its end before the next is made. *)
Definition _get_active_checkers : string → list string → M (gset string) :=
  trace (λ clang plugins,
  let load :=
    load_flags (λ x, ["-Xclang"; "-load"; "-Xclang"; x]) plugins in
  found ← for_each (λ language, checkers clang language load) languages;
  mret (list_to_set (concat found))).

(** [get_checkers]; [plugins] is [None] when the caller has none to pass,
    and [plugins if plugins else []] makes the empty list of it. *)
Definition get_checkers
  : string → option (list string) → M (gmap string (string * bool)) :=
  trace (λ clang plugins,
  let plugins :=
    match plugins with
    | Some (x :: xs) => x :: xs
    | _ => []
    end in
  actives ← _get_active_checkers clang plugins;
  let load := load_flags (λ x, ["-load"; x]) plugins in
  let cmd := [clang; "-cc1"] ++ load ++ ["-analyzer-checker-help"] in
  child ← Popen cmd None;
  checkers ← lift (catalog actives (readlines (stdout child)));
  if (returncode child =? 0)%Z && negb (Nat.eqb (size checkers) 0)
  then mret checkers
  else raise CatalogUnavailable).

End WithProcesses.

End Clang.

(** ** The vocabulary of the statements *)

(** Help text as [clang -cc1 -analyzer-checker-help] lays it out: lines
    before the header, the header line, and one or two lines for each
    checker. *)

Module HelpText.
Import Str.

(** An entry is a name and its description on one line, with blanks
    between them, or the name on a line of its own and the description,
    indented, on the next. *)
Inductive entry : Type :=
| Inline (name sep description : string)
| Split (name indent description : string).

Definition entry_name (e : entry) : string :=
  match e with Inline n _ _ | Split n _ _ => n end.

Definition entry_description (e : entry) : string :=
  match e with Inline _ _ d | Split _ _ d => d end.

Definition nl : string := String newline "".

Definition render (e : entry) : string :=
  match e with
  | Inline n sep d => "  " +:+ n +:+ sep +:+ d +:+ nl
  | Split n indent d => "  " +:+ n +:+ nl +:+ indent +:+ d +:+ nl
  end.

Definition nonempty (s : string) : bool :=
  match s with "" => false | _ => true end.

(** A name has no white space; blanks are white space other than the
    newline; a description is one line of text with no white space at
    either end. *)
Definition is_name (n : string) : bool := nonempty n && str_all not_space n.

Definition is_blank (w : string) : bool := str_all isspace w && no_newline w.

Definition is_text (d : string) : bool :=
  no_newline d && bool_decide (strip d = d).

(** The description of an inline entry is not empty, and the description
    line of a split entry does not look like a name line: its indentation is
    not two blanks. *)
Definition well_formed (e : entry) : bool :=
  match e with
  | Inline n sep d =>
      is_name n && nonempty sep && is_blank sep && nonempty d && is_text d
  | Split n indent d =>
      is_name n && is_blank indent
      && negb (Nat.eqb (String.length indent) 2) && is_text d
  end.

Fixpoint unlines (ls : list string) : string :=
  match ls with
  | [] => ""
  | l :: ls' => l +:+ nl +:+ unlines ls'
  end.

Definition body (es : list entry) : string :=
  fold_right (λ e acc, render e +:+ acc) "" es.

Definition help_text (preamble : list string) (es : list entry) : string :=
  unlines preamble +:+ "CHECKERS:" +:+ nl +:+ body es.

(** A line before the header. *)
Definition preamble_line (l : string) : bool :=
  no_newline l && negb (startswith "CHECKERS:" l).
End HelpText.

(** Names as the prefix rule reads them, and the pieces of the pattern that
    [is_active] builds from a name. *)

Module Names.
Import Str Re.
(** A name with no character that means something in a pattern. *)
Definition plain (a : string) : bool := str_all (λ c, negb (is_special c)) a.

Fixpoint lit_tokens (a : string) : list token :=
  match a with
  | "" => []
  | String c a' => TAtom (CItem (ILit c)) :: lit_tokens a'
  end.

Fixpoint push_lits (a : string) (seq : list regex) : list regex :=
  match a with
  | "" => seq
  | String c a' => push_lits a' (Chr (CItem (ILit c)) :: seq)
  end.

(** [(\.|$)] *)
Definition boundary : regex :=
  Group 1 (Alt (Cat (Chr (CItem (ILit "."))) Eps) (Cat Eol Eps)).

(** The rule of the specification: the name itself, or the name, a dot
    and more. *)
Definition descends (a entry : string) : bool :=
  bool_decide (entry = a) || startswith (a +:+ ".") entry.
End Names.

Module Probe.
Import Py.


(** [cmd] after [cmd.insert(1, '-###')]. *)
Definition dash_hashes (command : list string) : list string :=
  insert_at 1 "-###" command.

(** The command of [checkers] for a language, its load flags written as
    a concatenation. *)
Definition probe_command (clang : string) (plugins : list string)
    (language : string) : list string :=
  [clang; "--analyze"]
    ++ concat ((λ x, ["-Xclang"; "-load"; "-Xclang"; x]) <$> plugins)
    ++ ["-x"; language; "-"].

End Probe.

(** A compiler to run the statements on: what it prints when asked for its
    command ([-###], started with a working directory) and when asked for
    its checkers (started without one). *)

Module Demo.
Import Str Py HelpText.

Definition dq : string := String dquote "".
Definition bs : string := String backslash "".

Definition quoted_word (s : string) : string := " " +:+ dq +:+ s +:+ dq.

Definition probe_output : string :=
  "clang version 3.5.0" +:+ nl
    +:+ quoted_word "/usr/bin/clang" +:+ quoted_word "-cc1"
    +:+ quoted_word "-analyzer-checker=core"
    +:+ quoted_word "-analyzer-checker=unix" +:+ quoted_word "-x"
    +:+ quoted_word "c" +:+ nl.

Definition probe_tokens : list string :=
  ["/usr/bin/clang"; "-cc1"; "-analyzer-checker=core";
   "-analyzer-checker=unix"; "-x"; "c"].

Definition entries : list entry :=
  [ Inline "core.DivideZero" "   " "Check for division by zero";
    Split "unix.cstring.BadSizeArg" "        "
      "Check the size argument passed into C string functions";
    Inline "deadcode.DeadStores" " " "Check for dead stores" ].

Definition preamble : list string :=
  ["OVERVIEW: Clang Static Analyzer Checkers List"; ""].

Definition compiler (c : call) : child :=
  match cwd c with
  | Some _ => Child probe_output 0
  | None => Child (help_text preamble entries) 0
  end.

Definition actives : gset string := list_to_set ["core"; "unix"].

Definition catalog : gmap string (string * bool) :=
  {[ "core.DivideZero" := ("Check for division by zero", true);
     "unix.cstring.BadSizeArg" :=
       ("Check the size argument passed into C string functions", true);
     "deadcode.DeadStores" := ("Check for dead stores", false) ]}.

(** A compiler whose help text has no header line. *)
Definition headerless (c : call) : child :=
  match cwd c with
  | Some _ => Child probe_output 0
  | None => Child (unlines preamble) 0
  end.

(** A compiler with [unix.API] active and a checker called [unixXAPI]. *)
Definition dotted (c : call) : child :=
  match cwd c with
  | Some _ => Child (quoted_word "-analyzer-checker=unix.API" +:+ nl) 0
  | None =>
      Child ("CHECKERS:" +:+ nl +:+ "  unixXAPI  Not the API checker" +:+ nl) 0
  end.

(** A compiler whose one active checker is called by an opening
    parenthesis, whose help text has one entry, and whose help run exits
    with the given status. *)
Definition unbalanced (status : Z) (c : call) : child :=
  match cwd c with
  | Some _ => Child (quoted_word "-analyzer-checker=(" +:+ nl) 0
  | None =>
      Child ("CHECKERS:" +:+ nl
               +:+ "  core.DivideZero  Check for division by zero" +:+ nl)
        status
  end.

(** The help text of the scenario of the specification. *)
Definition scenario : string :=
  "CHECKERS:" +:+ nl +:+ "  core.CallAndMessage" +:+ nl
    +:+ "   Check for logical errors" +:+ nl +:+ "  unix.API" +:+ nl
    +:+ "   Check API usage" +:+ nl.

(** A last line that is a quoted word, each quote and the newline with a
    backslash before it. *)
Definition escaped_line : string :=
  bs +:+ dq +:+ "abc" +:+ bs +:+ dq +:+ bs +:+ nl.

End Demo.

(** * The rest of [clang.py] *)

(** ** [get_version] *)

Module Version.
Local Close Scope Z_scope.
Import Str Py Clang.

(** What [get_version] can raise: [subprocess.check_output] on an exit
    status other than zero, [bytes.decode('ascii')] on a byte above 127,
    and the index 0 on an empty list of lines. *)
Inductive failure : Type :=
| CalledProcessError (status : Z) (cmd : list string) (output : string)
| UnicodeDecodeError
| IndexError.

Definition is_ascii (c : ascii) : bool := Nat.ltb (nat_of_ascii c) 128.

(** The line boundaries of [str.splitlines] among the ASCII characters. *)
Definition linebreak (c : ascii) : bool :=
  match c with
  | "010" | "011" | "012" | "013" | "028" | "029" | "030" => true
  | _ => false
  end%char.

(** [s.splitlines()]: the lines without their boundaries, a carriage return
    and the newline after it being one boundary. *)
Fixpoint splitlines (s : string) : list string :=
  match s with
  | "" => []
  | String c s' =>
      if linebreak c then
        "" :: match c, s' with
              | "013"%char, String "010"%char s'' => splitlines s''
              | _, _ => splitlines s'
              end
      else
        match splitlines s' with
        | [] => [String c ""]
        | l :: ls => String c l :: ls
        end
  end.

Definition not_linebreak (c : ascii) : bool := negb (linebreak c).

(** Where a line ends: at the end of the text or before a line boundary. *)
Definition line_end (rest : string) : Prop :=
  match rest with
  | "" => True
  | String c _ => linebreak c = true
  end.

Section WithProcesses.

Variable run : call → child.

(** [get_version]; the output of the child is taken as the bytes it
    printed. *)
Definition get_version : string → world → (failure + string) * world :=
  trace (λ cmd w,
  let started := Call [cmd; "-v"] None in
  let child := run started in
  let w' := World (heap w) (spawned w ++ [started]) in
  if (returncode child =? 0)%Z then
    if str_all is_ascii (stdout child) then
      match splitlines (stdout child) with
      | line :: _ => (inr line, w')
      | [] => (inl IndexError, w')
      end
    else (inl UnicodeDecodeError, w')
  else
    (inl (CalledProcessError (returncode child) [cmd; "-v"] (stdout child)), w')).

End WithProcesses.

End Version.

(** The last line of [clang -###]: each argument between double quotes,
    after a blank. *)
Module CommandLine.
Local Close Scope Z_scope.
Import Str.

(** An argument that needs no escape between double quotes. *)
Definition bare (w : string) : bool :=
  str_all (λ c, negb (ascii_eqb c dquote) && negb (ascii_eqb c backslash)) w.

Definition quoted (w : string) : string :=
  String " " (String dquote (w +:+ String dquote "")).

Definition quoted_words (ws : list string) : string :=
  fold_right (λ w acc, quoted w +:+ acc) "" ws.

Definition command_line (ws : list string) : string :=
  quoted_words ws +:+ String newline "".

(** The same line cut off inside its last argument. *)
Definition cut_line (ws : list string) (w : string) : string :=
  quoted_words ws +:+ String " " (String dquote (w +:+ String newline "")).
End CommandLine.

(** Compilers for the examples of the further properties. *)
Module Cases.
Local Close Scope Z_scope.
Import Str Py CommandLine.

(** A compiler that prints nothing and fails when asked about C++. *)
Definition no_cxx (c : call) : child :=
  if bool_decide ("c++" ∈ argv c) then Child "" 1
  else Child (command_line ["clang"; "-cc1"; "-analyzer-checker=core"]) 0.

(** A compiler that prints its version, and one that fails. *)
Definition versioned (c : call) : child :=
  Child ("clang version 3.5.0 (tags/RELEASE_350/final)" +:+ String newline
           ("Target: x86_64-unknown-linux-gnu" +:+ String newline "")) 0.

Definition failing (c : call) : child := Child "clang: not found" 127.

(** A compiler whose command line is cut off inside its last argument. *)
Definition cut (c : call) : child :=
  Child (cut_line ["clang"; "-cc1"] "-o a") 0.

Definition plain_line (c : call) : child :=
  Child ("clang version 3.5.0" +:+ String newline
           (command_line ["/usr/bin/clang"; "-cc1"; "-D"; "A B"; "a.c"])) 0.
End Cases.

Module ProbeCalls.
Local Close Scope Z_scope.
Import Py Probe.
(** The process that [checkers] starts for a language. *)
Definition probe_call (clang : string) (plugins : list string)
    (language : string) : call :=
  Call (dash_hashes (probe_command clang plugins language)) (Some ".").
End ProbeCalls.

(** Checker names as Clang writes them: ordinary characters and dots.  In
    the pattern that [is_active] builds, a dot stands for any character but
    the newline. *)
Module Dotted.
Local Close Scope Z_scope.
Import Str Re.

Definition dotted_name (a : string) : bool :=
  str_all (λ c, negb (is_special c) || ascii_eqb c ".") a.

Definition atom (c : ascii) : cls :=
  if ascii_eqb c "." then CDot else CItem (ILit c).

Fixpoint atom_tokens (a : string) : list token :=
  match a with
  | "" => []
  | String c a' => TAtom (atom c) :: atom_tokens a'
  end.

Fixpoint push_atoms (a : string) (seq : list regex) : list regex :=
  match a with
  | "" => seq
  | String c a' => push_atoms a' (Chr (atom c) :: seq)
  end.

Fixpoint atoms (a : string) (r : regex) : regex :=
  match a with
  | "" => r
  | String c a' => Cat (Chr (atom c)) (atoms a' r)
  end.
End Dotted.

(** * Facts about the runtime *)

Module StrFacts.
Import Str.

Lemma str_app_nil_l s : "" +:+ s = s.
Proof. reflexivity. Qed.

Lemma str_app_cons c s t : String c s +:+ t = String c (s +:+ t).
Proof. reflexivity. Qed.

Lemma str_app_nil_r s : s +:+ "" = s.
Proof. induction s as [|c s IH]; [done|]. by rewrite str_app_cons, IH. Qed.

Lemma str_app_assoc s t u : (s +:+ t) +:+ u = s +:+ t +:+ u.
Proof. induction s as [|c s IH]; [done|]. by rewrite !str_app_cons, IH. Qed.

Lemma str_length_app s t :
  String.length (s +:+ t) = (String.length s + String.length t)%nat.
Proof. induction s as [|c s IH]; [done|]. rewrite ?str_app_cons; simpl. lia. Qed.

Lemma ascii_eqb_eq a b : ascii_eqb a b = true ↔ a = b.
Proof. unfold ascii_eqb. by rewrite bool_decide_eq_true. Qed.

Lemma ascii_eqb_refl a : ascii_eqb a a = true.
Proof. by apply ascii_eqb_eq. Qed.

Lemma ascii_eqb_neq a b : ascii_eqb a b = false ↔ a ≠ b.
Proof. unfold ascii_eqb. by rewrite bool_decide_eq_false. Qed.

Lemma str_all_app p s t : str_all p (s +:+ t) = str_all p s && str_all p t.
Proof.
  induction s as [|c s IH]; [done|].
  rewrite ?str_app_cons; simpl. by rewrite IH, andb_assoc.
Qed.

Lemma str_all_impl (p q : ascii → bool) s :
  (∀ c, p c = true → q c = true) → str_all p s = true → str_all q s = true.
Proof.
  intros Hpq. induction s as [|c s IH]; [done|]. simpl.
  intros [Hc Hs]%andb_true_iff. by rewrite (Hpq c Hc), IH.
Qed.

Lemma take_app s t :
  str_take (String.length (s +:+ t) - String.length t) (s +:+ t) = s.
Proof.
  rewrite str_length_app.
  replace (String.length s + String.length t - String.length t)%nat
    with (String.length s) by lia.
  induction s as [|c s IH].
  - rewrite str_app_nil_l. by destruct t.
  - rewrite ?str_app_cons; simpl. by rewrite IH.
Qed.

Lemma startswith_app s t : startswith s (s +:+ t) = true.
Proof.
  induction s as [|c s IH]; [done|].
  rewrite ?str_app_cons; simpl. by rewrite ascii_eqb_refl, IH.
Qed.

Lemma startswith_inv s u : startswith s u = true → ∃ t, u = s +:+ t.
Proof.
  revert u. induction s as [|c s IH]; intros u.
  - by exists u.
  - destruct u as [|d u]; [done|]. simpl.
    intros [->%ascii_eqb_eq [t ->]%IH]%andb_true_iff. by exists t.
Qed.

(** *** Stripping *)

Lemma lstrip_space w s : str_all isspace w = true → lstrip (w +:+ s) = lstrip s.
Proof.
  induction w as [|c w IH]; [done|]. simpl.
  intros [Hc Hw]%andb_true_iff. rewrite ?str_app_cons; simpl. by rewrite Hc, IH.
Qed.

Lemma rstrip_all_space w : str_all isspace w = true → rstrip w = "".
Proof.
  induction w as [|c w IH]; [done|]. simpl.
  intros [Hc Hw]%andb_true_iff. by rewrite IH, Hc.
Qed.

Lemma rstrip_space s w : str_all isspace w = true → rstrip (s +:+ w) = rstrip s.
Proof.
  intros Hw. induction s as [|c s IH].
  - by rewrite str_app_nil_l, rstrip_all_space.
  - rewrite ?str_app_cons; simpl. by rewrite IH.
Qed.

Lemma rstrip_keep s t :
  t ≠ "" → rstrip t = t → rstrip (s +:+ t) = s +:+ t.
Proof.
  intros Hne Ht. induction s as [|c s IH]; [done|].
  rewrite ?str_app_cons; simpl. rewrite IH.
  destruct (s +:+ t) eqn:E; [|done].
  destruct s; [|done]. by rewrite str_app_nil_l in E.
Qed.

Lemma rstrip_no_space s :
  str_all (λ c, negb (isspace c)) s = true → rstrip s = s.
Proof.
  induction s as [|c s IH]; [done|]. simpl.
  intros [Hc Hs]%andb_true_iff. rewrite (IH Hs).
  apply negb_true_iff in Hc. rewrite Hc. by destruct s.
Qed.

Lemma rstrip_length s : (String.length (rstrip s) ≤ String.length s)%nat.
Proof.
  induction s as [|c s IH]; [done|]. simpl.
  destruct (rstrip s); [destruct (isspace c)|]; simpl in *; lia.
Qed.

Lemma lstrip_length s : (String.length (lstrip s) ≤ String.length s)%nat.
Proof.
  induction s as [|c s IH]; [done|]. simpl.
  destruct (isspace c); simpl; lia.
Qed.

Lemma rstrip_same_length s :
  String.length (rstrip s) = String.length s → rstrip s = s.
Proof.
  induction s as [|c s IH]; [done|]. simpl.
  pose proof (rstrip_length s) as Hle.
  destruct (rstrip s) as [|d r] eqn:E.
  - destruct (isspace c); simpl; [done|]. destruct s; [done|simpl; lia].
  - simpl in *. intros H. f_equal. apply IH. lia.
Qed.

Lemma lstrip_same_length s :
  String.length (lstrip s) = String.length s → lstrip s = s.
Proof.
  destruct s as [|c s]; [done|]. simpl.
  pose proof (lstrip_length s). destruct (isspace c); [simpl; lia|done].
Qed.

(** A string that [strip] leaves alone starts and ends without white
    space. *)
Lemma strip_fixed s : strip s = s → lstrip s = s ∧ rstrip s = s.
Proof.
  unfold strip. intros H.
  assert (rstrip s = s) as Hr.
  { apply rstrip_same_length.
    pose proof (rstrip_length s). pose proof (lstrip_length (rstrip s)).
    rewrite H in *. lia. }
  split; [|done]. by rewrite Hr in H.
Qed.

Lemma lstrip_fixed_head c s : lstrip (String c s) = String c s → isspace c = false.
Proof.
  simpl. destruct (isspace c); [|done].
  intros H. pose proof (lstrip_length s) as Hle. rewrite H in Hle. simpl in Hle. lia.
Qed.

(** *** Lines *)

Lemma readlines_line l rest :
  no_newline l = true →
  readlines (l +:+ String newline rest) = (l +:+ String newline "") :: readlines rest.
Proof.
  unfold no_newline. induction l as [|c l IH]; simpl.
  - intros _. rewrite !str_app_nil_l. simpl. by rewrite ?ascii_eqb_refl.
  - intros [Hc Hl]%andb_true_iff. rewrite ?str_app_cons; simpl.
    apply negb_true_iff in Hc. by rewrite Hc, (IH Hl).
Qed.

Lemma isspace_newline c : isspace c = false → ascii_eqb c newline = false.
Proof.
  intros H. apply ascii_eqb_neq. intros ->. done.
Qed.

End StrFacts.

Module ReFacts.
Import Str Re StrFacts Clang Probe.

Lemma star_run_stop c s k : stops c s → star_run c s k = k s.
Proof. destruct s as [|a s]; [done|]. simpl. by intros ->. Qed.

Lemma star_run_longest c w s k g :
  str_all (cls_matches c) w = true → stops c s → k s = Some g →
  star_run c (w +:+ s) k = Some g.
Proof.
  intros Hw Hs Hk. induction w as [|a w IH].
  - by rewrite str_app_nil_l, star_run_stop.
  - simpl in Hw. apply andb_true_iff in Hw as [Ha Hw].
    rewrite str_app_cons. simpl. by rewrite Ha, (IH Hw).
Qed.

Lemma star_run_fail c w s k :
  str_all (cls_matches c) w = true → stops c s →
  (∀ w1 w2, w = w1 +:+ w2 → k (w2 +:+ s) = None) →
  star_run c (w +:+ s) k = None.
Proof.
  intros Hw Hs. induction w as [|a w IH]; intros Hk.
  - rewrite str_app_nil_l, star_run_stop by done. by apply (Hk "" "").
  - simpl in Hw. apply andb_true_iff in Hw as [Ha Hw].
    rewrite str_app_cons. simpl. rewrite Ha, (IH Hw).
    + by apply (Hk "" (String a w)).
    + intros w1 w2 ->. by apply (Hk (String a w1) w2).
Qed.

Lemma consumed_app s t : consumed (s +:+ t) t = s.
Proof. apply take_app. Qed.

Lemma consumed_all s : consumed s "" = s.
Proof. rewrite <-(str_app_nil_r s) at 1. apply consumed_app. Qed.

Lemma exec_lits_app n w r s g k :
  exec n (lits w r) (w +:+ s) g k = exec n r s g k.
Proof.
  induction w as [|c w IH]; [done|].
  rewrite str_app_cons. simpl. by rewrite ascii_eqb_refl.
Qed.

Lemma exec_lits_other n w r s g k :
  startswith w s = false → exec n (lits w r) s g k = None.
Proof.
  revert s. induction w as [|c w IH]; intros s; [done|].
  destruct s as [|a s]; [done|]. simpl.
  destruct (ascii_eqb c a); simpl; [apply IH|done].
Qed.


Lemma matches_Some p s g : re_match p s = Some g → matches p s = true.
Proof. unfold matches. intros ->. by apply bool_decide_eq_true. Qed.

Lemma matches_None p s : re_match p s = None → matches p s = false.
Proof.
  unfold matches. intros ->. apply bool_decide_eq_false. by intros [? ?].
Qed.

Lemma re_match_bol r ns s :
  re_match (Pattern (Cat Bol r) ns) s
  = exec (String.length s) r s [] (λ _ g, Some g).
Proof. unfold re_match. simpl. by rewrite Nat.eqb_refl. Qed.

(** A pattern that is [^] and a literal text is [str.startswith]. *)
Lemma matches_prefix w ns s :
  matches (Pattern (Cat Bol (lits w Eps)) ns) s = startswith w s.
Proof.
  destruct (startswith w s) eqn:E.
  - apply startswith_inv in E as [t ->].
    eapply matches_Some. rewrite re_match_bol, exec_lits_app. done.
  - apply matches_None. rewrite re_match_bol. by apply exec_lits_other.
Qed.

Lemma matches_header s : matches header_pattern s = startswith "CHECKERS:" s.
Proof. apply (matches_prefix "CHECKERS:"). Qed.

Lemma matches_error s : matches error_pattern s = startswith "clang: error:" s.
Proof. apply (matches_prefix "clang: error:"). Qed.

Lemma at_eol_long s : (2 ≤ String.length s)%nat → at_eol s = false.
Proof. destruct s as [|a [|b s]]; simpl; [lia..|done]. Qed.

Lemma at_eol_inv s : at_eol s = true → s = "" ∨ s = String newline "".
Proof.
  destruct s as [|a [|b s]]; simpl; [by left| |done].
  intros ->%ascii_eqb_eq. by right.
Qed.

(** The first branch of [parse_checkers] looks at three characters. *)
Lemma matches_indent s :
  matches indent_pattern s =
    match s with
    | String a (String b (String c _)) =>
        isspace a && isspace b && negb (isspace c)
    | _ => false
    end.
Proof.
  unfold indent_pattern. 
  destruct s as [|a [|b [|c s]]].
  - by apply matches_None.
  - apply matches_None. rewrite re_match_bol. simpl. by destruct (isspace a).
  - apply matches_None. rewrite re_match_bol. simpl.
    by destruct (isspace a), (isspace b).
  - destruct (isspace a) eqn:Ea, (isspace b) eqn:Eb, (isspace c) eqn:Ec; simpl;
      (apply matches_None || eapply matches_Some); rewrite re_match_bol; simpl;
      rewrite ?Ea, ?Eb, ?Ec; reflexivity.
Qed.

Lemma matches_name_line name :
  name ≠ "" → str_all not_space name = true →
  matches name_pattern ("  " +:+ name) = true.
Proof.
  intros Hne Hname. destruct name as [|a name]; [done|].
  simpl in Hname. apply andb_true_iff in Hname as [Ha Hname].
  eapply matches_Some. unfold name_pattern. rewrite re_match_bol.
  rewrite !str_app_cons, str_app_nil_l. simpl. unfold not_space in Ha. rewrite Ha.
  rewrite <-(str_app_nil_r name). by apply star_run_longest.
Qed.

Lemma star_run_all c w k g :
  str_all (cls_matches c) w = true → k "" = Some g → star_run c w k = Some g.
Proof.
  intros Hw Hk. rewrite <-(str_app_nil_r w). by apply star_run_longest.
Qed.

(** Where a repetition that led to a match stopped. *)
Lemma star_run_inv c x k g :
  star_run c x k = Some g →
  ∃ w rest, x = w +:+ rest ∧ str_all (cls_matches c) w = true ∧ k rest = Some g.
Proof.
  induction x as [|a x IH]; simpl.
  - intros H. by exists "", "".
  - destruct (cls_matches c a) eqn:Ea.
    + destruct (star_run c x k) as [g'|] eqn:E.
      * intros [= ->]. destruct (IH eq_refl) as (w & rest & -> & Hw & Hk).
        exists (String a w), rest. simpl. by rewrite Ea, Hw.
      * intros H. by exists "", (String a x).
    + intros H. by exists "", (String a x).
Qed.

Lemma matches_name_other name rest :
  name ≠ "" → str_all not_space name = true →
  stops (CItem INotSpace) rest → (2 ≤ String.length rest)%nat →
  matches name_pattern ("  " +:+ name +:+ rest) = false.
Proof.
  intros Hne Hname Hstop Hrest. apply matches_None.
  destruct name as [|a name]; [done|].
  simpl in Hname. apply andb_true_iff in Hname as [Ha Hname].
  unfold name_pattern. rewrite re_match_bol.
  rewrite !str_app_cons, str_app_nil_l. simpl. unfold not_space in Ha. rewrite Ha.
  apply star_run_fail; [done..|].
  intros w1 w2 _. rewrite at_eol_long; [done|]. rewrite str_length_app. lia.
Qed.

(** The last branch of [parse_checkers] on a line with a name and a
    description. *)
Lemma re_match_entry name sep description :
  str_all not_space name = true →
  sep ≠ "" → str_all isspace sep = true →
  stops (CItem ISpace) description → no_newline description = true →
  re_match entry_pattern ("  " +:+ name +:+ sep +:+ description)
  = Some [(2%nat, description); (1%nat, name)].
Proof.
  intros Hname Hne Hsep Hstop Hdesc.
  unfold entry_pattern. rewrite re_match_bol.
  rewrite !str_app_cons, str_app_nil_l. simpl.
  apply star_run_longest; [done| |].
  { destruct sep as [|b sep]; [done|]. simpl in *.
    apply andb_true_iff in Hsep as [-> _]. done. }
  apply star_run_longest; [done..|].
  apply star_run_all.
  { revert Hdesc. apply str_all_impl. done. }
  by rewrite consumed_all, consumed_app.
Qed.

Lemma groupdict_entry name description :
  let m := [(2%nat, description); (1%nat, name)] in
  groupdict entry_pattern m "key" = name
  ∧ groupdict entry_pattern m "value" = description.
Proof. done. Qed.

(** *** [strip_quotes] *)

Lemma not_dquote_set s :
  str_all not_dquote s = true →
  str_all (cls_matches (CSet true [ILit dquote])) s = true.
Proof.
  apply str_all_impl. intros c. unfold not_dquote. simpl.
  rewrite orb_false_r. intros Hc%negb_true_iff%ascii_eqb_neq.
  apply negb_true_iff, ascii_eqb_neq. congruence.
Qed.

Lemma set_not_dquote s :
  str_all (cls_matches (CSet true [ILit dquote])) s = true →
  str_all not_dquote s = true.
Proof.
  apply str_all_impl. intros c. unfold not_dquote. simpl.
  rewrite orb_false_r. intros Hc%negb_true_iff%ascii_eqb_neq.
  apply negb_true_iff, ascii_eqb_neq. congruence.
Qed.

Lemma re_match_quoted s e :
  str_all not_dquote s = true → at_eol e = true →
  re_match quoted_pattern (String dquote (s +:+ String dquote e))
  = Some [(1%nat, s)].
Proof.
  intros Hs He. unfold quoted_pattern. rewrite re_match_bol. simpl.
  apply star_run_longest; [by apply not_dquote_set|done|].
  simpl. by rewrite He, consumed_app.
Qed.

Lemma strip_quotes_quoted s e :
  str_all not_dquote s = true → at_eol e = true →
  strip_quotes (String dquote (s +:+ String dquote e)) = s.
Proof.
  intros Hs He. unfold strip_quotes. by rewrite re_match_quoted.
Qed.

Lemma strip_quotes_inv tok :
  strip_quotes tok = tok ∨
  ∃ s e, tok = String dquote (s +:+ String dquote e)
         ∧ str_all not_dquote s = true ∧ at_eol e = true
         ∧ strip_quotes tok = s.
Proof.
  unfold strip_quotes.
  destruct (re_match quoted_pattern tok) as [m|] eqn:E; [|by left].
  right. unfold quoted_pattern in E. rewrite re_match_bol in E.
  destruct tok as [|a tok]; [done|]. simpl in E.
  destruct (ascii_eqb _ a) eqn:Ea; [|done].
  apply ascii_eqb_eq in Ea as <-.
  apply star_run_inv in E as (w & rest & -> & Hw & Hk).
  destruct rest as [|b rest]; [done|].
  destruct (ascii_eqb _ b) eqn:Eb; [|done].
  apply ascii_eqb_eq in Eb as <-.
  destruct (at_eol rest) eqn:He; [|done].
  injection Hk as <-. exists w, rest. split; [done|].
  split; [by apply set_not_dquote|]. split; [done|].
  simpl. by rewrite consumed_app.
Qed.

(** On a token with no newline, [strip_quotes] is the rule of the
    specification: a token between double quotes with none inside loses
    them, every other token stays. *)
Lemma strip_quotes_rule tok :
  no_newline tok = true →
  (∀ s, str_all not_dquote s = true →
        tok = String dquote (s +:+ String dquote "") → strip_quotes tok = s)
  ∧ ((∀ s, str_all not_dquote s = true →
           tok ≠ String dquote (s +:+ String dquote "")) →
     strip_quotes tok = tok).
Proof.
  intros Htok. split.
  - intros s Hs ->. by apply strip_quotes_quoted.
  - intros Hother.
    destruct (strip_quotes_inv tok) as [H | (s & e & -> & Hs & He & _)]; [done|].
    apply at_eol_inv in He as [-> | ->]; [by destruct (Hother s Hs)|].
    exfalso. unfold no_newline in Htok. simpl in Htok.
    rewrite str_all_app in Htok. simpl in Htok.
    by rewrite !andb_false_r in Htok.
Qed.

Example strip_quotes_examples :
  strip_quotes (String dquote ("-I/usr/include" +:+ String dquote ""))
  = "-I/usr/include"
  ∧ strip_quotes ("foo" +:+ String dquote "bar")
    = "foo" +:+ String dquote "bar".
Proof. split; vm_compute; reflexivity. Qed.

(** *** The checker flag *)






End ReFacts.

(** * Facts about [clang.py] *)

Module ParseFacts.
Import Str Re StrFacts ReFacts Clang HelpText.

Lemma nonempty_ne s : nonempty s = true → s ≠ "".
Proof. by destruct s. Qed.

Lemma no_newline_app s t : no_newline (s +:+ t) = no_newline s && no_newline t.
Proof. apply str_all_app. Qed.

Lemma not_space_no_newline s : str_all not_space s = true → no_newline s = true.
Proof.
  apply str_all_impl. intros c Hc. unfold not_space in Hc.
  apply negb_true_iff in Hc. by rewrite isspace_newline.
Qed.

Lemma rstrip_line x d :
  d ≠ "" → rstrip d = d → rstrip (x +:+ d +:+ nl) = x +:+ d.
Proof.
  intros Hne Hd. rewrite <-str_app_assoc, rstrip_space by done.
  by apply rstrip_keep.
Qed.

Lemma startswith_line w l rest :
  no_newline w = true → startswith w l = false →
  startswith w (l +:+ String newline rest) = false.
Proof.
  revert l. induction w as [|c w IH]; intros l; [done|]. simpl.
  intros [Hc Hw]%andb_true_iff. destruct l as [|a l].
  - intros _. rewrite str_app_nil_l. simpl.
    apply negb_true_iff in Hc. by rewrite Hc.
  - rewrite str_app_cons. simpl. destruct (ascii_eqb c a); simpl; [by apply IH|done].
Qed.

Lemma find_header_text preamble rest :
  forallb preamble_line preamble = true →
  find_header (readlines (unlines preamble +:+ "CHECKERS:" +:+ nl +:+ rest))
  = readlines rest.
Proof.
  induction preamble as [|l ls IH]; cbn [unlines forallb].
  - intros _. rewrite str_app_nil_l.
    change ("CHECKERS:" +:+ nl +:+ rest)
      with ("CHECKERS:" +:+ String newline rest).
    rewrite readlines_line by done. cbn [find_header].
    by rewrite matches_header.
  - intros [[Hl Hh%negb_true_iff]%andb_true_iff Hls]%andb_true_iff.
    rewrite !str_app_assoc.
    change (l +:+ nl +:+ ?x) with (l +:+ String newline x).
    rewrite readlines_line by done. cbn [find_header].
    rewrite matches_header, startswith_line by done.
    by apply IH.
Qed.

Lemma text_parts d :
  is_text d = true →
  no_newline d = true ∧ lstrip d = d ∧ rstrip d = d ∧ stops (CItem ISpace) d.
Proof.
  intros [Hn Hs%bool_decide_eq_true]%andb_true_iff.
  apply strip_fixed in Hs as [Hl Hr]. repeat split; try done.
  destruct d as [|c d]; [done|]. simpl.
  by rewrite (lstrip_fixed_head _ _ Hl).
Qed.

Lemma name_parts n :
  is_name n = true → n ≠ "" ∧ str_all not_space n = true ∧ rstrip n = n
  ∧ lstrip n = n ∧ truthy (Some n) = true.
Proof.
  intros [Hne Hn]%andb_true_iff. split; [by apply nonempty_ne|].
  split; [done|]. split; [by apply rstrip_no_space|].
  destruct n as [|c n]; [done|]. simpl in *.
  apply andb_true_iff in Hn as [Hc _]. unfold not_space in Hc.
  apply negb_true_iff in Hc. by rewrite Hc.
Qed.

Lemma strip_name_line n : is_name n = true → strip ("  " +:+ n +:+ nl) = n.
Proof.
  intros (Hne & Hn & Hr & Hl & _)%name_parts. unfold strip.
  rewrite rstrip_line by done. by rewrite lstrip_space.
Qed.

Lemma strip_text_line indent d :
  str_all isspace indent = true → is_text d = true →
  strip (indent +:+ d +:+ nl) = d.
Proof.
  intros Hi (Hn & Hl & Hr & _)%text_parts. unfold strip.
  destruct d as [|c d].
  - rewrite str_app_nil_l, rstrip_all_space; [done|].
    by rewrite str_all_app, Hi.
  - rewrite rstrip_line by done. by rewrite lstrip_space.
Qed.

Lemma indent_text_line indent d :
  str_all isspace indent = true → String.length indent ≠ 2%nat →
  is_text d = true →
  matches indent_pattern (indent +:+ d +:+ nl) = false.
Proof.
  intros Hi Hlen (_ & _ & _ & Hstop)%text_parts. rewrite matches_indent.
  assert (∀ x d', d = String x d' → isspace x = false) as Hhead.
  { intros x d' ->. exact Hstop. }
  destruct indent as [|a [|b [|c indent]]]; [| |done|].
  - rewrite str_app_nil_l. destruct d as [|x d]; [done|].
    rewrite str_app_cons, (Hhead x d eq_refl).
    by destruct (d +:+ nl) as [|? [|? ?]].
  - rewrite str_app_cons, str_app_nil_l. destruct d as [|x d]; [done|].
    rewrite str_app_cons, (Hhead x d eq_refl), andb_false_r.
    by destruct (d +:+ nl).
  - rewrite !str_app_cons. simpl in Hi.
    apply andb_true_iff in Hi as [_ [_ [-> _]%andb_true_iff]%andb_true_iff].
    by rewrite andb_false_r.
Qed.

(** The second loop of [parse_checkers] on the lines of well-formed
    entries. *)
Lemma find_entries_body es rest :
  forallb well_formed es = true →
  find_entries None (readlines (body es +:+ rest))
  = ((λ e, (entry_name e, entry_description e)) <$> es)
      ++ find_entries None (readlines rest).
Proof.
  induction es as [|e es IH]; [done|]. simpl.
  intros [He Hes]%andb_true_iff. specialize (IH Hes).
  destruct e as [n sep d | n indent d]; simpl in He.
  - apply andb_true_iff in He as [[[[Hn Hsne]%andb_true_iff
      [Hsep Hsepn]%andb_true_iff]%andb_true_iff Hdne]%andb_true_iff Hd].
    pose proof (name_parts _ Hn) as (Hnne & Hns & _).
    pose proof (text_parts _ Hd) as (Hdn & Hdl & Hdr & Hstop).
    apply nonempty_ne in Hsne, Hdne.
    unfold render. rewrite !str_app_assoc.
    replace ("  " +:+ n +:+ sep +:+ d +:+ nl +:+ body es +:+ rest)
      with (("  " +:+ n +:+ sep +:+ d) +:+ String newline (body es +:+ rest))
      by (by rewrite !str_app_assoc).
    rewrite readlines_line.
    2:{ rewrite !no_newline_app, Hsepn, Hdn.
        by rewrite (not_space_no_newline _ Hns). }
    cbn [find_entries truthy andb].
    replace (("  " +:+ n +:+ sep +:+ d) +:+ String newline "")
      with (("  " +:+ n +:+ sep) +:+ d +:+ nl) by (by rewrite !str_app_assoc).
    rewrite rstrip_line by done. rewrite !str_app_assoc.
    rewrite matches_name_other; [|done..| |].
    2:{ destruct sep as [|c sep]; [done|]. simpl in *.
        apply andb_true_iff in Hsep as [-> _]. done. }
    2:{ rewrite str_length_app. destruct sep, d; simpl; try done; lia. }
    rewrite re_match_entry by done.
    by rewrite IH.
  - apply andb_true_iff in He as [[[Hn [Hi Hin]%andb_true_iff]%andb_true_iff
      Hlen%negb_true_iff%Nat.eqb_neq]%andb_true_iff Hd].
    pose proof (name_parts _ Hn) as (Hnne & Hns & Hnr & _ & Htruthy).
    pose proof (text_parts _ Hd) as (Hdn & _).
    unfold render. rewrite !str_app_assoc.
    replace ("  " +:+ n +:+ nl +:+ indent +:+ d +:+ nl +:+ body es +:+ rest)
      with (("  " +:+ n) +:+ String newline
              ((indent +:+ d) +:+ String newline (body es +:+ rest)))
      by (by rewrite !str_app_assoc).
    rewrite readlines_line.
    2:{ rewrite no_newline_app. by rewrite (not_space_no_newline _ Hns). }
    rewrite readlines_line by (by rewrite no_newline_app, Hin, Hdn).
    cbn [find_entries]. change (truthy None) with false. cbn [andb].
    replace (("  " +:+ n) +:+ String newline "") with ("  " +:+ n +:+ nl)
      by (by rewrite !str_app_assoc).
    rewrite rstrip_line by done.
    rewrite matches_name_line by done.
    rewrite strip_name_line by done.
    rewrite Htruthy.
    replace ((indent +:+ d) +:+ String newline "") with (indent +:+ d +:+ nl)
      by (by rewrite !str_app_assoc).
    rewrite indent_text_line by done. cbn [andb negb default].
    rewrite strip_text_line by done.
    by rewrite IH.
Qed.

End ParseFacts.

Module RunFacts.
Import Str Re Py StrFacts ReFacts Clang Probe.

Lemma fold_last {A} (stream : list A) (acc : option A) :
  fold_left (λ _ line, Some line) stream acc
  = match last stream with Some x => Some x | None => acc end.
Proof.
  revert acc. induction stream as [|x xs IH]; intros acc; [done|].
  cbn [fold_left]. rewrite IH. destruct xs as [|y ys]; [done|].
  change (last (x :: y :: ys)) with (last (y :: ys)).
  destruct (last (y :: ys)) eqn:E; [done|]. by apply last_None in E.
Qed.

Section WithProcesses.
Variable run : call → child.

Lemma get_arguments_run cwd command w :
  let cmd := dash_hashes (deref w command) in
  let child := run (Call cmd (Some cwd)) in
  get_arguments run cwd command w
  = (match last (readlines (stdout child)) with
     | None => Raise EmptyOutput
     | Some line =>
         if (returncode child =? 0)%Z then
           if startswith "clang: error:" line
           then Raise (CompilerReportedError line)
           else match Shlex.split line with
                | Some xs => Ok (strip_quotes <$> xs)
                | None => Raise ShlexError
                end
         else Raise (ExecutionFailed line)
     end,
     World (heap w ++ [cmd]) (spawned w ++ [Call cmd (Some cwd)])).
Proof.
  unfold get_arguments, trace, copy_list, read_list, new_list, list_insert,
    Popen, lastline, dash_hashes, mbind, M_bind, mret, M_ret, raise, deref.
  cbn [heap spawned].
  replace (alter (insert_at 1 "-###") (length (heap w))
             (heap w ++ [default [] (heap w !! command)]))
    with (heap w ++ [insert_at 1 "-###" (default [] (heap w !! command))]).
  2:{ rewrite <-(Nat.add_0_r (length (heap w))) at 1.
      by rewrite alter_app_r. }
  rewrite list_lookup_middle by done. cbn [default].
  rewrite fold_last.
  destruct (last _) as [line|]; [|done].
  destruct (returncode _ =? 0)%Z; [|done].
  rewrite matches_error.
  destruct (startswith _ line); [done|].
  by destruct (Shlex.split line).
Qed.

Lemma get_arguments_reconstruct cwd command w :
  let cmd := dash_hashes (deref w command) in
  get_arguments run cwd command w
  = (reconstruct run cwd (deref w command),
     World (heap w ++ [cmd]) (spawned w ++ [Call cmd (Some cwd)])).
Proof. unfold reconstruct. by rewrite !get_arguments_run. Qed.

Lemma load_flags_concat (fragment : string → list string) plugins :
  load_flags fragment plugins = concat (fragment <$> plugins).
Proof.
  unfold load_flags.
  enough (∀ acc, fold_left (λ acc x, acc ++ fragment x) plugins acc
                 = acc ++ concat (fragment <$> plugins)) as H by apply H.
  induction plugins as [|p ps IH]; intros acc; simpl.
  - by rewrite app_nil_r.
  - by rewrite IH, app_assoc.
Qed.

Lemma checkers_run clang plugins language w :
  let cmd := probe_command clang plugins language in
  checkers run clang language
    (load_flags (λ x, ["-Xclang"; "-load"; "-Xclang"; x]) plugins) w
  = ((λ args : list string, omap checker_of args) <$> reconstruct run "." cmd,
     World (heap w ++ [cmd; dash_hashes cmd])
       (spawned w ++ [Call (dash_hashes cmd) (Some ".")])).
Proof.
  unfold checkers, new_list, mbind, M_bind, mret, M_ret.
  rewrite get_arguments_reconstruct. unfold deref. cbn [heap spawned].
  rewrite list_lookup_middle by done. cbn [default].
  rewrite load_flags_concat. fold (probe_command clang plugins language).
  rewrite <-app_assoc. cbn [app].
  by destruct (reconstruct _ _ _).
Qed.

Lemma probe_run clang plugins w c cxx objc objcxx :
  reconstruct run "." (probe_command clang plugins "c") = Ok c →
  reconstruct run "." (probe_command clang plugins "c++") = Ok cxx →
  reconstruct run "." (probe_command clang plugins "objective-c") = Ok objc →
  reconstruct run "." (probe_command clang plugins "objective-c++") = Ok objcxx →
  _get_active_checkers run clang plugins w
  = (Ok (list_to_set (omap checker_of c) ∪ list_to_set (omap checker_of cxx)
         ∪ list_to_set (omap checker_of objc)
         ∪ list_to_set (omap checker_of objcxx)),
     World
       (heap w ++
          concat ((λ language,
                     [probe_command clang plugins language;
                      dash_hashes (probe_command clang plugins language)])
                    <$> languages))
       (spawned w ++
          ((λ language,
              Call (dash_hashes (probe_command clang plugins language))
                (Some ".")) <$> languages))).
Proof.
  intros Hc Hcxx Hobjc Hobjcxx.
  unfold _get_active_checkers, trace, languages, for_each, mbind, M_bind,
    mret, M_ret.
  rewrite !checkers_run, Hc, Hcxx, Hobjc, Hobjcxx. cbn [fmap result_fmap heap spawned].
  f_equal.
  - f_equal. cbn [concat]. rewrite app_nil_r, !list_to_set_app_L.
    by rewrite !(assoc_L (∪)).
  - f_equal; by rewrite <-!app_assoc.
Qed.

Lemma get_checkers_run clang plugins w :
  let ps := default [] plugins in
  let cmd := [clang; "-cc1"] ++ concat ((λ x, ["-load"; x]) <$> ps)
               ++ ["-analyzer-checker-help"] in
  let help := run (Call cmd None) in
  get_checkers run clang plugins w
  = match _get_active_checkers run clang ps w with
    | (Ok actives, w1) =>
        (match catalog actives (readlines (stdout help)) with
         | Ok checkers =>
             if (returncode help =? 0)%Z && negb (Nat.eqb (size checkers) 0)
             then Ok checkers else Raise CatalogUnavailable
         | Raise e => Raise e
         end,
         World (heap w1) (spawned w1 ++ [Call cmd None]))
    | (Raise e, w1) => (Raise e, w1)
    end.
Proof.
  unfold get_checkers, trace.
  replace (match plugins with Some (x :: xs) => x :: xs | _ => [] end)
    with (default [] plugins) by (by destruct plugins as [[|x xs]|]).
  unfold mbind, M_bind, mret, M_ret, Popen, lift, raise.
  rewrite load_flags_concat.
  destruct (_get_active_checkers _ _ _ _) as [[actives|e] w1]; [|done].
  cbn [heap spawned].
  destruct (catalog _ _) as [checkers|e]; [|done].
  by destruct (_ && _).
Qed.

Lemma catalog_from_nonempty actives pairs d checkers :
  catalog_from actives pairs d = Ok checkers →
  checkers = ∅ ↔ pairs = [] ∧ d = ∅.
Proof.
  revert d. induction pairs as [|[k v] pairs IH]; intros d; simpl.
  - intros [= ->]. split; [done|by intros [_ ->]].
  - unfold mbind, result_bind. destruct (is_active actives k) as [b|e]; [|done].
    intros H%IH. rewrite H. split; [|by intros [[=] _]].
    intros [_ Hd]. by apply insert_non_empty in Hd.
Qed.

Lemma catalog_empty actives stream checkers :
  catalog actives stream = Ok checkers →
  checkers = ∅ ↔ parse_checkers stream = [].
Proof.
  unfold catalog. intros H%catalog_from_nonempty. rewrite H.
  split; [by intros [-> _]|done].
Qed.

Lemma find_header_none stream :
  (∀ line, line ∈ stream → startswith "CHECKERS:" line = false) →
  find_header stream = [].
Proof.
  induction stream as [|line rest IH]; intros H; [done|]. simpl.
  rewrite matches_header, H by apply list_elem_of_here.
  apply IH. intros l Hl. apply H. by apply list_elem_of_further.
Qed.

End WithProcesses.
End RunFacts.

Module ActiveFacts.
Import Str Re Py StrFacts ReFacts ParseFacts Clang Names.

Lemma normal_step_plain c :
  is_special c = false →
  normal_step c = Some ([TAtom (CItem (ILit c))], LNormal).
Proof.
  intros H. unfold normal_step. rewrite H.
  unfold is_special in H. cbn [existsb] in H.
  repeat (destruct (ascii_eqb c _);
          [cbn [orb] in H; rewrite ?orb_true_r in H; discriminate H|]).
  reflexivity.
Qed.

Lemma lex_plain a rest :
  plain a = true →
  lex LNormal (a +:+ rest) = (lit_tokens a ++.) <$> lex LNormal rest.
Proof.
  unfold plain. induction a as [|c a IH]; simpl.
  - intros _. rewrite str_app_nil_l. by destruct (lex LNormal rest).
  - intros [Hc%negb_true_iff Ha]%andb_true_iff.
    rewrite ?str_app_cons. cbn [lex lex_step].
    rewrite (normal_step_plain c Hc). cbn [mbind option_bind].
    rewrite (IH Ha). by destruct (lex LNormal rest).
Qed.

Lemma parse_lits a ts g alts seq stack next ns :
  parse (PState (Frame g alts seq) stack next ns) (lit_tokens a ++ ts)
  = parse (PState (Frame g alts (push_lits a seq)) stack next ns) ts.
Proof.
  revert seq. induction a as [|c a IH]; intros seq; [done|].
  cbn [lit_tokens app parse parse_step mbind option_bind].
  apply IH.
Qed.

Lemma seq_of_lits a seq r :
  fold_left (λ acc x, Cat x acc) (push_lits a seq) r
  = fold_left (λ acc x, Cat x acc) seq (lits a r).
Proof.
  revert seq. induction a as [|c a IH]; intros seq; [done|].
  simpl. by rewrite IH.
Qed.

Lemma re_compile_plain a :
  plain a = true →
  re_compile ("^" +:+ a +:+ "(\.|$)")
  = Some (Pattern (Cat Bol (lits a (Cat boundary Eps))) []).
Proof.
  intros Ha. unfold re_compile.
  change ("^" +:+ a +:+ "(\.|$)") with (String "^" (a +:+ "(\.|$)")).
  cbn [lex].
  change (lex_step LNormal "^"%char) with (Some ([TBol], LNormal)).
  cbn [mbind option_bind]. rewrite lex_plain by done.
  replace (lex LNormal "(\.|$)")
    with (Some [TOpen true None; TAtom (CItem (ILit "."%char)); TBar; TEol; TClose])
    by reflexivity.
  cbn [fmap option_fmap option_map mbind option_bind app].
  cbn [parse parse_step mbind option_bind with_top push_item p_top p_stack
         p_next p_names f_group f_alts f_seq].
  unfold with_top, push_item.
  cbn [p_top p_stack p_next p_names f_group f_alts f_seq].
  rewrite parse_lits.
  cbn [parse parse_step mbind option_bind with_top push_item p_top p_stack
         p_next p_names f_group f_alts f_seq close_frame alt_of seq_of
         fold_left].
  unfold with_top, push_item, repeat, close_frame, alt_of, seq_of.
  cbn [parse parse_step mbind option_bind p_top p_stack
         p_next p_names f_group f_alts f_seq fold_left].
  by rewrite seq_of_lits.
Qed.

Lemma startswith_refl s : startswith s s = true.
Proof. rewrite <-(str_app_nil_r s) at 2. apply startswith_app. Qed.

Lemma startswith_common s x y : startswith (s +:+ x) (s +:+ y) = startswith x y.
Proof.
  induction s as [|c s IH]; [done|].
  rewrite !str_app_cons. simpl. by rewrite ascii_eqb_refl.
Qed.

Lemma startswith_longer s x u :
  startswith s u = false → startswith (s +:+ x) u = false.
Proof.
  revert u. induction s as [|c s IH]; intros u; [done|].
  rewrite str_app_cons. destruct u as [|a u]; [done|]. simpl.
  destruct (ascii_eqb c a); simpl; [apply IH|done].
Qed.

Lemma app_eq_self s t : s +:+ t = s ↔ t = "".
Proof.
  split; [|intros ->; apply str_app_nil_r].
  intros H. apply (f_equal String.length) in H. rewrite str_length_app in H.
  destruct t; [done|simpl in H; lia].
Qed.

(** The pattern that [is_active] builds from a plain name. *)
Lemma matches_plain a entry :
  no_newline entry = true →
  matches (Pattern (Cat Bol (lits a (Cat boundary Eps))) []) entry
  = descends a entry.
Proof.
  intros Hentry. unfold descends.
  destruct (startswith a entry) eqn:E.
  - apply startswith_inv in E as [t ->].
    rewrite (startswith_common a "." t).
    rewrite no_newline_app in Hentry. apply andb_true_iff in Hentry as [_ Ht].
    destruct t as [|c t].
    + rewrite bool_decide_eq_true_2 by apply str_app_nil_r.
      eapply matches_Some. by rewrite re_match_bol, exec_lits_app.
    + rewrite bool_decide_eq_false_2 by (by rewrite app_eq_self).
      simpl. rewrite andb_true_r.
      destruct (ascii_eqb "." c) eqn:Ec.
      * eapply matches_Some. rewrite re_match_bol, exec_lits_app. simpl.
        by rewrite Ec.
      * apply matches_None. rewrite re_match_bol, exec_lits_app. simpl.
        rewrite Ec. simpl in Ht. apply andb_true_iff in Ht as [Hc _].
        apply negb_true_iff in Hc. destruct t; [by rewrite Hc|done].
  - rewrite (startswith_longer _ _ _ E), orb_false_r.
    rewrite bool_decide_eq_false_2.
    2:{ intros ->. by rewrite startswith_refl in E. }
    apply matches_None. rewrite re_match_bol. by apply exec_lits_other.
Qed.

Lemma any_match_plain actives entry :
  forallb plain actives = true → no_newline entry = true →
  any_match actives entry = Ok (existsb (λ a, descends a entry) actives).
Proof.
  intros Hplain Hentry. induction actives as [|a actives IH]; [done|].
  simpl in *. apply andb_true_iff in Hplain as [Ha Hplain].
  rewrite re_compile_plain, matches_plain by done.
  destruct (descends a entry); [done|]. by apply IH.
Qed.

(** When every name compiles, the order in which [any] takes the names
    does not matter. *)
Lemma any_match_exists actives entry :
  Forall (λ a, is_Some (re_compile ("^" +:+ a +:+ "(\.|$)"))) actives →
  any_match actives entry
  = Ok (existsb (λ a, from_option (λ p, matches p entry) false
                        (re_compile ("^" +:+ a +:+ "(\.|$)"))) actives).
Proof.
  induction 1 as [|a actives [p Hp] _ IH]; [done|].
  simpl. rewrite Hp. simpl. by destruct (matches p entry).
Qed.

Lemma any_match_order actives1 actives2 entry :
  actives1 ≡ₚ actives2 →
  Forall (λ a, is_Some (re_compile ("^" +:+ a +:+ "(\.|$)"))) actives1 →
  any_match actives1 entry = any_match actives2 entry.
Proof.
  intros Hperm Hall.
  rewrite !any_match_exists by (by rewrite <-?Hperm).
  f_equal. apply eq_true_iff_eq. rewrite !existsb_exists.
  split; intros (a & Ha%list_elem_of_In & H); exists a;
    (split; [apply list_elem_of_In|done]).
  - by rewrite <-Hperm.
  - by rewrite Hperm.
Qed.

(** For plain names, and whatever the order in which the set is iterated,
    [is_active] is the rule of the specification. *)
Lemma is_active_plain (actives : gset string) entry :
  (∀ a, a ∈ actives → plain a = true) → no_newline entry = true →
  is_active actives entry
  = Ok (bool_decide (∃ a, a ∈ actives ∧ descends a entry = true)).
Proof.
  intros Hplain Hentry. unfold is_active.
  rewrite any_match_plain; [|apply forallb_forall|done].
  2:{ intros a Ha%list_elem_of_In%elem_of_elements. by apply Hplain. }
  f_equal. apply eq_true_iff_eq.
  rewrite existsb_exists, bool_decide_eq_true.
  split.
  - intros (a & Ha%list_elem_of_In%elem_of_elements & Hd). eauto.
  - intros (a & Ha & Hd). exists a. split; [|done].
    by apply list_elem_of_In, elem_of_elements.
Qed.
Example is_active_unix :
  is_active {["unix"]} <$> ["unix"; "unix.API"; "unix.Malloc.Sizeof"; "unixy"]
  = [Ok true; Ok true; Ok true; Ok false].
Proof. vm_compute. reflexivity. Qed.

End ActiveFacts.

(** * Facts for the further properties *)

Module QuoteFacts.
Local Close Scope Z_scope.
Import Str Re Py Clang StrFacts ReFacts CommandLine.

Lemma strip_quotes_plain s : str_all not_dquote s = true → strip_quotes s = s.
Proof.
  intros Hs. destruct (strip_quotes_inv s) as [H | (t & e & -> & _)]; [done|].
  by simpl in Hs.
Qed.

Lemma bare_not_dquote w : bare w = true → str_all not_dquote w = true.
Proof. apply str_all_impl. by intros c [? _]%andb_true_iff. Qed.

Lemma emit_blank (xs : option (list string)) : Shlex.emit "" false <$> xs = xs.
Proof. by destruct xs. Qed.

Lemma tokens_blank c r :
  Shlex.whitespace c = true →
  Shlex.tokens (String c r) Shlex.SBlank "" false
  = Shlex.tokens r Shlex.SBlank "" false.
Proof. intros Hc. simpl. rewrite Hc. apply emit_blank. Qed.

(** Inside double quotes a bare text is taken as it is, up to the closing
    quote. *)
Lemma tokens_in_quotes w r token q :
  bare w = true →
  Shlex.tokens (w +:+ String dquote r) (Shlex.SQuote dquote) token q
  = Shlex.tokens r Shlex.SWord (token +:+ w) true.
Proof.
  revert token q. induction w as [|c w IH]; intros token q Hw.
  - by rewrite str_app_nil_l, str_app_nil_r.
  - simpl in Hw. apply andb_true_iff in Hw as [[Hq Hb]%andb_true_iff Hw].
    apply negb_true_iff in Hq, Hb.
    rewrite str_app_cons. cbn [Shlex.tokens]. rewrite Hq.
    unfold Shlex.escape. rewrite Hb. cbn [andb].
    rewrite (IH _ _ Hw). unfold Shlex.add.
    by rewrite str_app_assoc.
Qed.

Lemma tokens_unclosed w token q :
  bare w = true →
  Shlex.tokens w (Shlex.SQuote dquote) token q = None.
Proof.
  revert token q. induction w as [|c w IH]; intros token q Hw; [done|].
  simpl in Hw. apply andb_true_iff in Hw as [[Hq Hb]%andb_true_iff Hw].
  apply negb_true_iff in Hq, Hb.
  cbn [Shlex.tokens]. rewrite Hq. unfold Shlex.escape. rewrite Hb. cbn [andb].
  by apply IH.
Qed.

Lemma tokens_quoted w c r :
  bare w = true → Shlex.whitespace c = true →
  Shlex.tokens (quoted w +:+ String c r) Shlex.SBlank "" false
  = (w ::.) <$> Shlex.tokens (String c r) Shlex.SBlank "" false.
Proof.
  intros Hw Hc. unfold quoted. rewrite !str_app_cons.
  rewrite !(tokens_blank c r Hc), tokens_blank by done.
  cbn [Shlex.tokens]. change (Shlex.whitespace dquote) with false.
  change (Shlex.escape dquote) with false. change (Shlex.quotes dquote) with true.
  cbn iota. rewrite str_app_assoc, !str_app_cons, str_app_nil_l.
  rewrite tokens_in_quotes by done. rewrite str_app_nil_l.
  cbn [Shlex.tokens]. rewrite Hc.
  by destruct w, (Shlex.tokens r _ _ _).
Qed.

Lemma quoted_words_head ws c r :
  Shlex.whitespace c = true →
  ∃ c' r', quoted_words ws +:+ String c r = String c' r'
           ∧ Shlex.whitespace c' = true.
Proof.
  intros Hc. destruct ws as [|w ws].
  - by exists c, r.
  - eexists " "%char, _. split; reflexivity.
Qed.

Lemma tokens_quoted_words ws c r :
  forallb bare ws = true → Shlex.whitespace c = true →
  Shlex.tokens (quoted_words ws +:+ String c r) Shlex.SBlank "" false
  = (ws ++.) <$> Shlex.tokens (String c r) Shlex.SBlank "" false.
Proof.
  intros Hws Hc. induction ws as [|w ws IH].
  - cbn [quoted_words fold_right]. rewrite str_app_nil_l.
    by destruct (Shlex.tokens _ _ _ _).
  - simpl in Hws. apply andb_true_iff in Hws as [Hw Hws].
    cbn [quoted_words fold_right]. rewrite str_app_assoc.
    fold (quoted_words ws).
    destruct (quoted_words_head ws c r Hc) as (c' & r' & E & Hc').
    rewrite E, tokens_quoted by done. rewrite <-E, (IH Hws).
    by destruct (Shlex.tokens (String c r) _ _ _).
Qed.

(** [shlex.split] takes the quotes off the line of [clang -###]. *)
Lemma split_command_line ws :
  forallb bare ws = true → Shlex.split (command_line ws) = Some ws.
Proof.
  intros Hws. unfold Shlex.split, command_line.
  rewrite tokens_quoted_words by done. simpl. by rewrite app_nil_r.
Qed.

Lemma split_cut_line ws w :
  forallb bare ws = true → bare w = true →
  Shlex.split (cut_line ws w) = None.
Proof.
  intros Hws Hw. unfold Shlex.split, cut_line.
  rewrite tokens_quoted_words by done.
  rewrite tokens_blank by done.
  cbn [Shlex.tokens]. change (Shlex.whitespace dquote) with false.
  change (Shlex.escape dquote) with false. change (Shlex.quotes dquote) with true.
  cbn iota. rewrite tokens_unclosed; [done|].
  unfold bare. rewrite str_all_app. fold (bare w). by rewrite Hw.
Qed.

Lemma strip_quotes_bare ws :
  forallb bare ws = true → strip_quotes <$> ws = ws.
Proof.
  induction ws as [|w ws IH]; [done|]. cbn [forallb].
  intros [Hw Hws]%andb_true_iff. rewrite fmap_cons, (IH Hws).
  by rewrite strip_quotes_plain by (by apply bare_not_dquote).
Qed.

Lemma command_line_no_error ws :
  startswith "clang: error:" (command_line ws) = false.
Proof. by destruct ws. Qed.

Lemma cut_line_no_error ws w :
  startswith "clang: error:" (cut_line ws w) = false.
Proof. by destruct ws. Qed.

(** [strip_quotes] does nothing the second time. *)
Lemma strip_quotes_again tok : strip_quotes (strip_quotes tok) = strip_quotes tok.
Proof.
  destruct (strip_quotes_inv tok) as [H | (s & e & _ & Hs & _ & ->)].
  - by rewrite !H.
  - by apply strip_quotes_plain.
Qed.

Lemma strip_quotes_shorter tok :
  (String.length (strip_quotes tok) ≤ String.length tok)%nat.
Proof.
  destruct (strip_quotes_inv tok) as [H | (s & e & -> & _ & _ & H)];
    rewrite H; [done|].
  simpl. rewrite str_length_app. lia.
Qed.
End QuoteFacts.

Module EntryFacts.
Local Close Scope Z_scope.
Import Str Re Py Clang HelpText StrFacts ReFacts ParseFacts.

Lemma rstrip_again s : rstrip (rstrip s) = rstrip s.
Proof.
  induction s as [|c s IH]; [done|]. cbn [rstrip].
  destruct (rstrip s) as [|d r] eqn:E.
  - destruct (isspace c) eqn:Ec; [done|]. simpl. by rewrite Ec.
  - cbn [rstrip]. cbn [rstrip] in IH. by rewrite IH.
Qed.

(** What the second branch of [parse_checkers] asks of a line. *)
Lemma matches_name_inv s :
  matches name_pattern s = true →
  ∃ a b w e, s = String a (String b (w +:+ e))
             ∧ isspace a = true ∧ isspace b = true
             ∧ w ≠ "" ∧ str_all not_space w = true ∧ at_eol e = true.
Proof.
  unfold matches. intros [m Hm]%bool_decide_eq_true.
  unfold name_pattern in Hm. rewrite re_match_bol in Hm.
  destruct s as [|a [|b [|c s]]]; simpl in Hm; [done| | |].
  { by destruct (isspace a). }
  { by destruct (isspace a), (isspace b). }
  destruct (isspace a) eqn:Ea; [|done].
  destruct (isspace b) eqn:Eb; [|done].
  destruct (negb (isspace c)) eqn:Ec; [|done].
  apply star_run_inv in Hm as (w & e & -> & Hw & He).
  destruct (at_eol e) eqn:Hee; [|done].
  exists a, b, (String c w), e. repeat split; try done.
  simpl. unfold not_space at 1. by rewrite Ec.
Qed.

(** The name that the second branch keeps has no white space. *)
Lemma strip_name s :
  matches name_pattern (rstrip s) = true →
  strip s ≠ "" ∧ str_all not_space (strip s) = true.
Proof.
  intros (a & b & w & e & Hs & Ha & Hb & Hne & Hw & He)%matches_name_inv.
  assert (e = "") as ->.
  { apply at_eol_inv in He as [-> | ->]; [done|]. exfalso.
    pose proof (rstrip_again s) as Hidem. rewrite Hs in Hidem.
    assert (rstrip (String a (String b (w +:+ String newline "")))
            = String a (String b w)) as Hr.
    { change (String a (String b (w +:+ String newline "")))
        with ((String a (String b "")) +:+ w +:+ String newline "").
      rewrite <-str_app_assoc, rstrip_space by done.
      apply rstrip_keep; [done|]. by apply rstrip_no_space. }
    rewrite Hr in Hidem. injection Hidem as Hidem.
    apply (f_equal String.length) in Hidem.
    rewrite str_length_app in Hidem. simpl in Hidem. lia. }
  unfold strip. rewrite Hs, str_app_nil_r.
  change (String a (String b w)) with (String a (String b "") +:+ w).
  rewrite lstrip_space by (by simpl; rewrite Ha, Hb).
  destruct w as [|c w]; [done|]. simpl in Hw.
  apply andb_true_iff in Hw as [Hc Hw]. unfold not_space in Hc.
  apply negb_true_iff in Hc. simpl. rewrite Hc. split; [done|].
  simpl. unfold not_space at 1. by rewrite Hc.
Qed.

(** The key that the last branch yields has no white space. *)
Lemma entry_key s m :
  re_match entry_pattern s = Some m →
  str_all not_space (groupdict entry_pattern m "key") = true.
Proof.
  unfold entry_pattern. rewrite re_match_bol.
  destruct s as [|a [|b s]]; simpl; [done| |].
  { by destruct (isspace a). }
  destruct (isspace a); [|done]. destruct (isspace b); [|done].
  intros (w & r1 & -> & Hw & Hk)%star_run_inv.
  apply star_run_inv in Hk as (w2 & r2 & -> & _ & Hk).
  apply star_run_inv in Hk as (w3 & r3 & -> & _ & Hk).
  injection Hk as <-. unfold groupdict. simpl.
  rewrite consumed_app. revert Hw. by apply str_all_impl.
Qed.

Lemma find_entries_names state stream :
  (∀ n, state = Some n → str_all not_space n = true) →
  Forall (λ p, str_all not_space p.1 = true) (find_entries state stream).
Proof.
  revert state. induction stream as [|line rest IH]; intros state Hstate;
    [by constructor|].
  cbn [find_entries].
  destruct (truthy state && negb (matches indent_pattern line)) eqn:E1.
  - apply andb_true_iff in E1 as [Ht _]. destruct state as [n|]; [|done].
    constructor; [by apply Hstate|]. by apply IH.
  - destruct (matches name_pattern (rstrip line)) eqn:E2.
    + apply IH. intros n [= <-]. by apply strip_name.
    + destruct (re_match entry_pattern (rstrip line)) as [m|] eqn:E3.
      * constructor; [by eapply entry_key|]. by apply IH.
      * by apply IH.
Qed.

Lemma find_entries_length state stream :
  length (find_entries state stream) ≤ length stream.
Proof.
  revert state. induction stream as [|line rest IH]; intros state; [done|].
  cbn [find_entries].
  destruct (truthy state && negb (matches indent_pattern line)).
  - simpl. specialize (IH None). lia.
  - destruct (matches name_pattern (rstrip line)).
    + specialize (IH (Some (strip line))). simpl. lia.
    + destruct (re_match entry_pattern (rstrip line)); simpl;
        specialize (IH state); lia.
Qed.

Lemma find_header_length stream :
  length (find_header stream) ≤ pred (length stream).
Proof.
  induction stream as [|line rest IH]; [done|]. simpl.
  destruct (matches header_pattern line); [done|]. lia.
Qed.

Lemma find_header_before before stream :
  forallb (λ line, negb (startswith "CHECKERS:" line)) before = true →
  find_header (before ++ stream) = find_header stream.
Proof.
  induction before as [|line before IH]; [done|].
  cbn [forallb app find_header].
  intros [Hline%negb_true_iff Hbefore]%andb_true_iff.
  by rewrite matches_header, Hline, IH.
Qed.

Lemma readlines_unlines ls rest :
  forallb no_newline ls = true →
  readlines (unlines ls +:+ rest) = ((λ l, l +:+ nl) <$> ls) ++ readlines rest.
Proof.
  induction ls as [|l ls IH]; [done|]. cbn [forallb unlines].
  intros [Hl Hls]%andb_true_iff. rewrite !str_app_assoc.
  change (l +:+ nl +:+ ?x) with (l +:+ String newline x).
  rewrite readlines_line by done. by rewrite (IH Hls).
Qed.

(** A line that is a name and nothing else replaces the name that was
    waiting for its description, and yields nothing. *)
Lemma find_entries_bare_name state n rest :
  is_name n = true →
  find_entries state (("  " +:+ n +:+ nl) :: rest)
  = find_entries (Some n) rest.
Proof.
  intros Hn. pose proof (name_parts _ Hn) as (Hne & Hns & Hr & _).
  cbn [find_entries].
  assert (matches indent_pattern ("  " +:+ n +:+ nl) = true) as ->.
  { rewrite matches_indent. destruct n as [|c n]; [done|].
    simpl in Hns. apply andb_true_iff in Hns as [Hc _]. by simpl. }
  rewrite andb_false_r. rewrite rstrip_line by done.
  by rewrite matches_name_line, strip_name_line.
Qed.

Lemma find_entries_bare_names state ns :
  forallb is_name ns = true →
  find_entries state ((λ n, ("  " +:+ n) +:+ nl) <$> ns) = [].
Proof.
  revert state. induction ns as [|n ns IH]; intros state; [done|].
  cbn [forallb]. intros [Hn Hns]%andb_true_iff. rewrite fmap_cons.
  rewrite str_app_assoc, find_entries_bare_name by done. by apply IH.
Qed.

(** A line of blanks and text, more than two blanks deep, when no name is
    waiting: the last branch takes the empty name. *)
Lemma find_entries_deep_text sep d rest :
  nonempty sep = true → is_blank sep = true →
  nonempty d = true → is_text d = true →
  find_entries None (("  " +:+ sep +:+ d +:+ nl) :: rest)
  = ("", d) :: find_entries None rest.
Proof.
  intros Hsne [Hsep Hsepn]%andb_true_iff Hdne Hd.
  pose proof (text_parts _ Hd) as (Hdn & Hdl & Hdr & Hstop).
  apply nonempty_ne in Hsne, Hdne.
  cbn [find_entries]. change (truthy None) with false. cbn [andb].
  replace ("  " +:+ sep +:+ d +:+ nl) with (("  " +:+ sep) +:+ d +:+ nl)
    by (by rewrite !str_app_assoc).
  rewrite rstrip_line by done. rewrite str_app_assoc.
  assert (matches name_pattern ("  " +:+ sep +:+ d) = false) as ->.
  { apply matches_None. unfold name_pattern. rewrite re_match_bol.
    destruct sep as [|c sep]; [done|]. simpl in Hsep.
    apply andb_true_iff in Hsep as [Hc _].
    rewrite !str_app_cons, str_app_nil_l. simpl. by rewrite Hc. }
  change ("  " +:+ sep +:+ d) with ("  " +:+ "" +:+ sep +:+ d).
  by rewrite re_match_entry.
Qed.
End EntryFacts.

Module CatalogFacts.
Local Close Scope Z_scope.
Import Str Re Py Clang StrFacts ReFacts RunFacts Probe.

Lemma last_occurrence (k : string) (pairs : list (string * string)) :
  k ∈ pairs.*1 →
  ∃ before v after, pairs = before ++ (k, v) :: after ∧ k ∉ after.*1.
Proof.
  induction pairs as [|[k0 v0] pairs IH]; [by intros ?%elem_of_nil|].
  destruct (decide (k ∈ pairs.*1)) as [Hin | Hout].
  - intros _. destruct (IH Hin) as (before & v & after & -> & Hafter).
    by exists ((k0, v0) :: before), v, after.
  - rewrite fmap_cons, elem_of_cons. intros [-> | ?]; [|done].
    by exists [], v0, pairs.
Qed.

(** The dictionary after the comprehension went through [pairs], begun
    with [d]. *)
Lemma catalog_from_lookup actives pairs d c :
  catalog_from actives pairs d = Ok c →
  (∀ k, k ∉ pairs.*1 → c !! k = d !! k)
  ∧ (∀ before k v after,
       pairs = before ++ (k, v) :: after → k ∉ after.*1 →
       ∃ b, is_active actives k = Ok b ∧ c !! k = Some (v, b)).
Proof.
  revert d. induction pairs as [|[k0 v0] pairs IH]; intros d.
  - intros [= ->]. split; [done|]. by intros [|??] ????.
  - cbn [catalog_from]. unfold mbind, result_bind.
    destruct (is_active actives k0) as [b0|e] eqn:E; [|done].
    intros [Hother Hlast]%IH. split.
    + intros k Hk. rewrite fmap_cons, not_elem_of_cons in Hk.
      destruct Hk as [Hne Hk]. simpl in Hne.
      by rewrite (Hother k Hk), lookup_insert_ne.
    + intros [|p before] k v after Hpairs Hafter.
      * simplify_eq/=. exists b0. split; [done|].
        by rewrite (Hother k Hafter), lookup_insert_eq.
      * simplify_eq/=. by eapply Hlast.
Qed.
End CatalogFacts.

Module ProbeFacts.
Local Close Scope Z_scope.
Import Str Re Py Clang StrFacts ReFacts RunFacts Probe.

Section WithProcesses.
Variable run : call → child.

(** The loop over the languages stops at the first one whose command
    cannot be reconstructed. *)
Lemma for_each_checkers_fails clang plugins before language rest e w :
  Forall (λ l, ∃ ts, reconstruct run "." (probe_command clang plugins l) = Ok ts)
    before →
  reconstruct run "." (probe_command clang plugins language) = Raise e →
  let r :=
    for_each (λ l, checkers run clang l
                     (load_flags (λ x, ["-Xclang"; "-load"; "-Xclang"; x])
                        plugins))
      (before ++ language :: rest) w in
  r.1 = Raise e
  ∧ spawned r.2
    = spawned w ++ (ProbeCalls.probe_call clang plugins <$> (before ++ [language])).
Proof.
  intros Hdone Hfail. revert w.
  induction Hdone as [|l before [ts Hl] _ IH]; intros w.
  - cbn [app for_each]. unfold mbind, M_bind.
    rewrite checkers_run, Hfail. done.
  - cbn [app for_each]. unfold mbind, M_bind.
    rewrite checkers_run, Hl. cbn [fmap result_fmap].
    specialize (IH (World (heap w ++ [probe_command clang plugins l;
                                      dash_hashes (probe_command clang plugins l)])
                      (spawned w ++ [ProbeCalls.probe_call clang plugins l]))).
    cbn zeta in IH. destruct IH as [IH1 IH2].
    unfold ProbeCalls.probe_call in *.
    destruct (for_each _ _ _) as [[found|e'] w']; cbn [fst snd] in *; [done|].
    split; [done|]. rewrite IH2. cbn [spawned]. by rewrite <-app_assoc.
Qed.
End WithProcesses.
End ProbeFacts.

Module DottedFacts.
Local Close Scope Z_scope.
Import Str Re Py Clang Names Dotted StrFacts ReFacts ActiveFacts.

Lemma normal_step_atom c :
  negb (is_special c) || ascii_eqb c "." = true →
  normal_step c = Some ([TAtom (atom c)], LNormal).
Proof.
  unfold atom. destruct (ascii_eqb c ".") eqn:E.
  - apply ascii_eqb_eq in E as ->. done.
  - rewrite orb_false_r. intros H%negb_true_iff. by apply normal_step_plain.
Qed.

Lemma lex_dotted a rest :
  dotted_name a = true →
  lex LNormal (a +:+ rest) = (atom_tokens a ++.) <$> lex LNormal rest.
Proof.
  unfold dotted_name. induction a as [|c a IH]; simpl.
  - intros _. rewrite str_app_nil_l. by destruct (lex LNormal rest).
  - intros [Hc Ha]%andb_true_iff.
    rewrite ?str_app_cons. cbn [lex lex_step].
    rewrite (normal_step_atom c Hc). cbn [mbind option_bind].
    rewrite (IH Ha). by destruct (lex LNormal rest).
Qed.

Lemma parse_atoms a ts g alts seq stack next ns :
  parse (PState (Frame g alts seq) stack next ns) (atom_tokens a ++ ts)
  = parse (PState (Frame g alts (push_atoms a seq)) stack next ns) ts.
Proof.
  revert seq. induction a as [|c a IH]; intros seq; [done|].
  cbn [atom_tokens app parse parse_step mbind option_bind].
  apply IH.
Qed.

Lemma seq_of_atoms a seq r :
  fold_left (λ acc x, Cat x acc) (push_atoms a seq) r
  = fold_left (λ acc x, Cat x acc) seq (atoms a r).
Proof.
  revert seq. induction a as [|c a IH]; intros seq; [done|].
  simpl. by rewrite IH.
Qed.

Lemma re_compile_dotted a :
  dotted_name a = true →
  re_compile ("^" +:+ a +:+ "(\.|$)")
  = Some (Pattern (Cat Bol (atoms a (Cat boundary Eps))) []).
Proof.
  intros Ha. unfold re_compile.
  change ("^" +:+ a +:+ "(\.|$)") with (String "^" (a +:+ "(\.|$)")).
  cbn [lex].
  change (lex_step LNormal "^"%char) with (Some ([TBol], LNormal)).
  cbn [mbind option_bind]. rewrite lex_dotted by done.
  replace (lex LNormal "(\.|$)")
    with (Some [TOpen true None; TAtom (CItem (ILit "."%char)); TBar; TEol; TClose])
    by reflexivity.
  cbn [fmap option_fmap option_map mbind option_bind app].
  cbn [parse parse_step mbind option_bind with_top push_item p_top p_stack
         p_next p_names f_group f_alts f_seq].
  unfold with_top, push_item.
  cbn [p_top p_stack p_next p_names f_group f_alts f_seq].
  rewrite parse_atoms.
  cbn [parse parse_step mbind option_bind with_top push_item p_top p_stack
         p_next p_names f_group f_alts f_seq close_frame alt_of seq_of
         fold_left].
  unfold with_top, push_item, repeat, close_frame, alt_of, seq_of.
  cbn [parse parse_step mbind option_bind p_top p_stack
         p_next p_names f_group f_alts f_seq fold_left].
  by rewrite seq_of_atoms.
Qed.

Lemma atom_self c : cls_matches (atom c) c = true.
Proof.
  unfold atom. destruct (ascii_eqb c ".") eqn:E.
  - apply ascii_eqb_eq in E as ->. done.
  - simpl. apply ascii_eqb_refl.
Qed.

(** The pattern of a name matches the name. *)
Lemma exec_atoms_self n a r s g k :
  exec n (atoms a r) (a +:+ s) g k = exec n r s g k.
Proof.
  induction a as [|c a IH]; [done|].
  rewrite str_app_cons. simpl. by rewrite atom_self.
Qed.

Lemma matches_descends a entry :
  descends a entry = true →
  matches (Pattern (Cat Bol (atoms a (Cat boundary Eps))) []) entry = true.
Proof.
  unfold descends. intros [->%bool_decide_eq_true | H]%orb_true_iff.
  - eapply matches_Some. rewrite re_match_bol.
    pose proof (exec_atoms_self (String.length a) a (Cat boundary Eps) ""
                  [] (λ _ g, Some g)) as H.
    rewrite str_app_nil_r in H. by rewrite H.
  - apply startswith_inv in H as [t ->]. rewrite str_app_assoc.
    eapply matches_Some. rewrite re_match_bol, exec_atoms_self. done.
Qed.

Lemma any_match_descends actives entry :
  forallb dotted_name actives = true →
  existsb (λ a, descends a entry) actives = true →
  any_match actives entry = Ok true.
Proof.
  induction actives as [|a actives IH]; [done|]. cbn [forallb existsb any_match].
  intros [Ha Hall]%andb_true_iff Hex. rewrite re_compile_dotted by done.
  destruct (matches _ entry) eqn:Hm; [done|].
  apply IH; [done|]. apply orb_true_iff in Hex as [Hd | ?]; [|done].
  by rewrite (matches_descends _ _ Hd) in Hm.
Qed.
End DottedFacts.

Module VersionFacts.
Local Close Scope Z_scope.
Import Str Py Clang Version StrFacts.

Lemma splitlines_nil s : splitlines s = [] ↔ s = "".
Proof.
  split; [|by intros ->]. destruct s as [|c s]; [done|]. cbn [splitlines].
  destruct (linebreak c); [done|]. by destruct (splitlines s).
Qed.

Lemma splitlines_first s l ls :
  splitlines s = l :: ls →
  str_all not_linebreak l = true ∧ ∃ rest, s = l +:+ rest ∧ line_end rest.
Proof.
  revert l ls. induction s as [|c s IH]; intros l ls; [done|].
  cbn [splitlines]. destruct (linebreak c) eqn:Ec.
  - intros [= <- _]. split; [done|]. exists (String c s). by split.
  - destruct (splitlines s) as [|l' ls'] eqn:E.
    + intros [= <- _]. apply splitlines_nil in E as ->.
      unfold not_linebreak. simpl. rewrite Ec. split; [done|]. by exists "".
    + intros [= <- _]. destruct (IH _ _ eq_refl) as [Hl (rest & -> & Hrest)].
      unfold not_linebreak in *. simpl. rewrite Ec, Hl. split; [done|].
      by exists rest.
Qed.

Lemma splitlines_head l rest :
  str_all not_linebreak l = true → line_end rest → l +:+ rest ≠ "" →
  ∃ ls, splitlines (l +:+ rest) = l :: ls.
Proof.
  induction l as [|c l IH]; intros Hl Hrest Hne.
  - rewrite str_app_nil_l in *. destruct rest as [|c r]; [done|].
    simpl in Hrest. cbn [splitlines]. rewrite Hrest. eauto.
  - simpl in Hl. apply andb_true_iff in Hl as [Hc Hl].
    unfold not_linebreak in Hc. apply negb_true_iff in Hc.
    rewrite str_app_cons. cbn [splitlines]. rewrite Hc.
    destruct (l +:+ rest) as [|c' r'] eqn:E.
    + destruct l; [|done]. simpl. eauto.
    + destruct (IH Hl Hrest) as [ls ->]; [done|]. eauto.
Qed.
End VersionFacts.

Module WholeFacts.
Local Close Scope Z_scope.
Import Str Re Py Clang HelpText Names Probe CommandLine.
Import StrFacts ReFacts ParseFacts RunFacts ActiveFacts QuoteFacts CatalogFacts.

Section WithProcesses.
Variable run : call → child.

Lemma reconstruct_command_line cwd command ws :
  let child := run (Call (dash_hashes command) (Some cwd)) in
  returncode child = 0%Z →
  last (readlines (stdout child)) = Some (command_line ws) →
  forallb bare ws = true →
  reconstruct run cwd command = Ok ws.
Proof.
  intros child Hrc Hlast Hws. unfold reconstruct. rewrite get_arguments_run.
  unfold deref. cbn [heap lookup list_lookup default from_option id fst].
  fold child. rewrite Hlast, Hrc. cbn [Z.eqb].
  by rewrite command_line_no_error, split_command_line, strip_quotes_bare.
Qed.

Lemma reconstruct_cut_line cwd command ws a :
  let child := run (Call (dash_hashes command) (Some cwd)) in
  returncode child = 0%Z →
  last (readlines (stdout child)) = Some (cut_line ws a) →
  forallb bare ws = true → bare a = true →
  reconstruct run cwd command = Raise ShlexError.
Proof.
  intros child Hrc Hlast Hws Ha. unfold reconstruct. rewrite get_arguments_run.
  unfold deref. cbn [heap lookup list_lookup default from_option id fst].
  fold child. rewrite Hlast, Hrc. cbn [Z.eqb].
  by rewrite cut_line_no_error, split_cut_line.
Qed.

(** The comprehension goes through when [is_active] has an answer for each
    name. *)
Lemma catalog_from_ok actives pairs d :
  Forall (λ p, ∃ b, is_active actives p.1 = Ok b) pairs →
  ∃ c, catalog_from actives pairs d = Ok c.
Proof.
  intros Hall. revert d. induction Hall as [|[k v] pairs [b Hb] _ IH]; intros d.
  - by exists d.
  - cbn [catalog_from]. simpl in Hb. rewrite Hb. apply IH.
Qed.

Lemma parse_help_text preamble es :
  forallb preamble_line preamble = true →
  forallb well_formed es = true →
  parse_checkers (readlines (help_text preamble es))
  = (λ e, (entry_name e, entry_description e)) <$> es.
Proof.
  intros Hpre Hes. unfold parse_checkers, help_text.
  rewrite find_header_text by done.
  rewrite <-(str_app_nil_r (body es)), find_entries_body by done.
  simpl. by rewrite app_nil_r.
Qed.

Lemma well_formed_name e :
  well_formed e = true → is_name (entry_name e) = true.
Proof.
  destruct e as [n sep d | n indent d]; cbn [well_formed entry_name]; intros H.
  - by apply andb_true_iff in H as [[[[? _]%andb_true_iff _]%andb_true_iff
                                     _]%andb_true_iff _].
  - by apply andb_true_iff in H as [[[? _]%andb_true_iff _]%andb_true_iff _].
Qed.

End WithProcesses.
End WholeFacts.

Module FinalTestFacts.
Import Str Re Py Clang HelpText RunFacts.

(** The last test of [get_checkers], for the runs that reach it: once the
    probe has given the active set and every parsed name has been given its
    status, [get_checkers] fails with [CatalogUnavailable] exactly when the
    child that prints the help text exits with a status other than zero,
    whatever it printed, or the catalog is empty, which it is exactly when
    the parser yields no pair; otherwise it returns the catalog, which is
    not empty. *)
Lemma get_checkers_final_test (run : call → child) clang plugins w
    actives checkers :
  let plugins' := default [] plugins in
  let help :=
    run (Call ([clang; "-cc1"]
                 ++ concat ((λ plugin, ["-load"; plugin]) <$> plugins')
                 ++ ["-analyzer-checker-help"]) None) in
  (_get_active_checkers run clang plugins' w).1 = Ok actives →
  catalog actives (readlines (stdout help)) = Ok checkers →
  let result := (get_checkers run clang plugins w).1 in
  (result = Raise CatalogUnavailable ↔ returncode help ≠ 0%Z ∨ checkers = ∅)
  ∧ (returncode help = 0%Z → checkers ≠ ∅ → result = Ok checkers)
  ∧ (∀ catalog, result = Ok catalog → catalog = checkers ∧ catalog ≠ ∅)
  ∧ (checkers = ∅ ↔ parse_checkers (readlines (stdout help)) = []).
Proof.
  intros plugins' help Hprobe Hcatalog result. subst result.
  rewrite get_checkers_run. fold plugins'. fold help.
  destruct (_get_active_checkers run clang plugins' w) as [probed w1].
  cbn [fst] in Hprobe. subst probed. rewrite Hcatalog. cbn [fst].
  pose proof (map_size_empty_iff checkers) as Hsize.
  destruct (returncode help =? 0)%Z eqn:Hrc; cbn [andb].
  - apply Z.eqb_eq in Hrc.
    destruct (Nat.eqb (size checkers) 0) eqn:Hn; cbn [negb].
    + apply Nat.eqb_eq, Hsize in Hn. split; [|split; [|split]].
      * split; [by right|done].
      * done.
      * done.
      * by apply catalog_empty in Hcatalog.
    + apply Nat.eqb_neq in Hn. assert (checkers ≠ ∅) as Hne by (by rewrite <-Hsize).
      split; [|split; [|split]].
      * split; [done|]. by intros [? | ?].
      * done.
      * by intros ? [= <-].
      * by apply catalog_empty in Hcatalog.
  - apply Z.eqb_neq in Hrc. split; [|split; [|split]].
    + split; [by left|done].
    + done.
    + done.
    + by apply catalog_empty in Hcatalog.
Qed.

Lemma get_checkers_final_test_example :
  (get_checkers Demo.compiler "clang" None (World [] [])).1 = Ok Demo.catalog.
Proof.
  apply (get_checkers_final_test Demo.compiler "clang" None (World [] [])
           Demo.actives Demo.catalog).
  - vm_compute. reflexivity.
  - vm_compute. reflexivity.
  - reflexivity.
  - vm_compute. discriminate.
Defined.

End FinalTestFacts.

(** * The properties of the specification *)

Import Str Re Py Clang HelpText Names Probe.
Import StrFacts ReFacts ParseFacts RunFacts ActiveFacts.

(** C1: [is_active] reads a name of the active set as a pattern, not as a
    literal text: with the active set [{unix.API}] the name [unixXAPI],
    which neither is [unix.API] nor starts with [unix.API.], is marked
    active. *)
Theorem is_active_reads_pattern :
  is_active {["unix.API"]} "unixXAPI" = Ok true
  ∧ descends "unix.API" "unixXAPI" = false
  ∧ (get_checkers Demo.dotted "clang" None (World [] [])).1
    = Ok {[ "unixXAPI" := ("Not the API checker", true) ]}.
Proof. repeat split; vm_compute; reflexivity. Qed.

(** C2: a token that is a quoted word followed by a newline does not end
    with a double quote, and [strip_quotes] strips it all the same, quotes
    and newline: [get_arguments] returns [abc] for the last line
    [Demo.escaped_line], whose one token is [abc] between double quotes
    followed by a newline. *)
Theorem strip_quotes_strips_final_newline :
  let token := Demo.dq +:+ "abc" +:+ Demo.dq +:+ nl in
  Shlex.split Demo.escaped_line = Some [token]
  ∧ strip_quotes token = "abc"
  ∧ reconstruct (λ _, Child Demo.escaped_line 0) "." ["clang"; "-c"; "a.c"]
    = Ok ["abc"].
Proof. repeat split; vm_compute; reflexivity. Qed.

(** C3: [get_arguments] fails with [EmptyOutput] when the child printed no
    line; with [ExecutionFailed], carrying the last line, when the exit
    status is not zero; with [CompilerReportedError], carrying the last
    line, when the status is zero and that line starts with
    [clang: error:]; and when it returns tokens none of these hold: they are
    the tokens of the last line. *)
Theorem get_arguments_failures (run : call → child) cwd command w :
  let child := run (Call (dash_hashes (deref w command)) (Some cwd)) in
  let lines := readlines (stdout child) in
  let result := (get_arguments run cwd command w).1 in
  (lines = [] ↔ stdout child = "")
  ∧ (lines = [] → result = Raise EmptyOutput)
  ∧ (∀ line, last lines = Some line → returncode child ≠ 0%Z →
       result = Raise (ExecutionFailed line))
  ∧ (∀ line, last lines = Some line → returncode child = 0%Z →
       startswith "clang: error:" line = true →
       result = Raise (CompilerReportedError line))
  ∧ (∀ tokens, result = Ok tokens →
       ∃ line xs, last lines = Some line ∧ returncode child = 0%Z
         ∧ startswith "clang: error:" line = false
         ∧ Shlex.split line = Some xs ∧ tokens = strip_quotes <$> xs).
Proof.
  intros child lines result. subst result. rewrite get_arguments_run.
  fold child. fold lines. cbn [fst].
  split; [|split; [|split; [|split]]].
  - subst lines. destruct (stdout child) as [|c s]; [done|].
    split; [|done]. simpl. destruct (ascii_eqb c newline); [done|].
    by destruct (readlines s).
  - by intros ->.
  - intros line -> Hrc. apply Z.eqb_neq in Hrc. by rewrite Hrc.
  - intros line -> -> Herr. by rewrite Herr.
  - intros tokens H. destruct (last lines) as [line|]; [|done].
    destruct (returncode child =? 0)%Z eqn:Hrc; [|done].
    destruct (startswith "clang: error:" line) eqn:Herr; [done|].
    destruct (Shlex.split line) as [xs|] eqn:Hxs; [|done].
    injection H as <-. exists line, xs. by apply Z.eqb_eq in Hrc.
Qed.

(** C4: [get_checkers] gives every parsed name its status before it looks
    at the exit status of the help run or at the size of the catalog, and
    [is_active] raises when an active name is not a pattern. With the
    compiler [Demo.unbalanced], whose one active name is an opening
    parenthesis and whose help text has one entry, [get_checkers] fails
    with the error of the pattern, not with [CatalogUnavailable], at every
    exit status of the help run: also at a status other than zero, and at
    status zero it does not return the catalog of one entry. *)
Theorem get_checkers_pattern_error (status : Z) w :
  let run := Demo.unbalanced status in
  let help := run (Call ["clang"; "-cc1"; "-analyzer-checker-help"] None) in
  returncode help = status
  ∧ parse_checkers (readlines (stdout help))
    = [("core.DivideZero", "Check for division by zero")]
  ∧ (_get_active_checkers run "clang" [] w).1 = Ok {["("]}
  ∧ is_active {["("]} "core.DivideZero" = Raise ReError
  ∧ (get_checkers run "clang" None w).1 = Raise ReError
  ∧ (get_checkers run "clang" None w).1 ≠ Raise CatalogUnavailable.
Proof.
  intros run help.
  assert (_get_active_checkers run "clang" [] w
          = (Ok {["("]},
             World
               (heap w ++
                  concat ((λ language,
                             [probe_command "clang" [] language;
                              dash_hashes (probe_command "clang" [] language)])
                            <$> languages))
               (spawned w ++
                  ((λ language,
                      Call (dash_hashes (probe_command "clang" [] language))
                        (Some ".")) <$> languages)))) as Hprobe.
  { rewrite (probe_run run "clang" [] w ["-analyzer-checker=("]
               ["-analyzer-checker=("] ["-analyzer-checker=("]
               ["-analyzer-checker=("]) by (vm_compute; reflexivity).
    do 2 f_equal; vm_compute; reflexivity. }
  assert ((get_checkers run "clang" None w).1 = Raise ReError) as Hresult.
  { rewrite get_checkers_run. cbn [default]. rewrite Hprobe.
    cbn [fst]. vm_compute. reflexivity. }
  split; [reflexivity|]. split; [vm_compute; reflexivity|].
  split; [by rewrite Hprobe|]. split; [vm_compute; reflexivity|].
  split; [done|]. by rewrite Hresult.
Qed.

(** C5: for help text made of lines that do not start with [CHECKERS:],
    the header line, and then well-formed entries, each either a name and
    its description on one line or the name on a line of its own and the
    description on the next, the parser yields one pair for each entry, in
    order, with the name and the description of the entry, whichever form
    the entry has. *)
Theorem parse_checkers_well_formed preamble es :
  forallb preamble_line preamble = true →
  forallb well_formed es = true →
  parse_checkers (readlines (help_text preamble es))
  = (λ e, (entry_name e, entry_description e)) <$> es
  ∧ length (parse_checkers (readlines (help_text preamble es))) = length es.
Proof.
  intros Hpre Hes.
  assert (parse_checkers (readlines (help_text preamble es))
          = (λ e, (entry_name e, entry_description e)) <$> es) as ->.
  { unfold parse_checkers, help_text.
    rewrite find_header_text by done.
    rewrite <-(str_app_nil_r (body es)), find_entries_body by done.
    simpl. by rewrite app_nil_r. }
  by rewrite length_fmap.
Qed.

Lemma parse_checkers_well_formed_witness :
  parse_checkers (readlines (help_text Demo.preamble Demo.entries))
  = (λ e, (entry_name e, entry_description e)) <$> Demo.entries
  ∧ length (parse_checkers (readlines (help_text Demo.preamble Demo.entries)))
    = length Demo.entries.
Proof.
  apply (parse_checkers_well_formed Demo.preamble Demo.entries).
  - vm_compute. reflexivity.
  - vm_compute. reflexivity.
Defined.

(** C6: on the help text of the scenario, with the active set [{core}],
    parsing and activation give the catalog with [core.CallAndMessage]
    active and [unix.API] not. *)
Theorem scenario_catalog :
  catalog {["core"]} (readlines Demo.scenario)
  = Ok {[ "core.CallAndMessage" := ("Check for logical errors", true);
          "unix.API" := ("Check API usage", false) ]}.
Proof. vm_compute. reflexivity. Qed.



(** C8: [get_checkers], with no plugins when the caller passes none, starts
    the compiler itself, after the probe and only if the probe succeeded,
    with the arguments [clang -cc1], then [-load] and the path for each
    plugin in order, then [-analyzer-checker-help]. *)
Theorem get_checkers_help_command (run : call → child) clang plugins w :
  let plugins' := default [] plugins in
  let cmd := [clang; "-cc1"]
               ++ concat ((λ plugin, ["-load"; plugin]) <$> plugins')
               ++ ["-analyzer-checker-help"] in
  let probe := _get_active_checkers run clang plugins' w in
  spawned (get_checkers run clang plugins w).2
  = spawned probe.2
      ++ match probe.1 with
         | Ok _ => [Call cmd None]
         | Raise _ => []
         end.
Proof.
  intros plugins' cmd probe. rewrite get_checkers_run.
  fold plugins'. fold probe.
  destruct probe as [[actives|e] w1]; cbn [fst snd spawned]; [done|].
  by rewrite app_nil_r.
Qed.

(** C9: when no line of the help text starts with [CHECKERS:], the parser
    yields no pair, and [get_checkers], the probe having succeeded, fails
    with [CatalogUnavailable] whatever the exit status, zero included. *)
Theorem headerless_help_unavailable (run : call → child) clang plugins w
    actives :
  let plugins' := default [] plugins in
  let help :=
    run (Call ([clang; "-cc1"]
                 ++ concat ((λ plugin, ["-load"; plugin]) <$> plugins')
                 ++ ["-analyzer-checker-help"]) None) in
  (_get_active_checkers run clang plugins' w).1 = Ok actives →
  forallb (λ line, negb (startswith "CHECKERS:" line))
    (readlines (stdout help)) = true →
  parse_checkers (readlines (stdout help)) = []
  ∧ (get_checkers run clang plugins w).1 = Raise CatalogUnavailable.
Proof.
  intros plugins' help Hprobe Hlines.
  assert (parse_checkers (readlines (stdout help)) = []) as Hparse.
  { unfold parse_checkers. rewrite find_header_none; [done|].
    intros line Hline%list_elem_of_In.
    rewrite forallb_forall in Hlines. by apply negb_true_iff, Hlines. }
  split; [done|].
  rewrite get_checkers_run. fold plugins'. fold help.
  destruct (_get_active_checkers run clang plugins' w) as [probed w1].
  cbn [fst] in Hprobe. subst probed.
  unfold catalog. rewrite Hparse. cbn [catalog_from fst].
  by rewrite andb_false_r.
Qed.

Lemma headerless_help_unavailable_witness :
  parse_checkers (readlines (stdout (Demo.headerless
    (Call ["clang"; "-cc1"; "-analyzer-checker-help"] None)))) = []
  ∧ (get_checkers Demo.headerless "clang" None (World [] [])).1
    = Raise CatalogUnavailable.
Proof.
  apply (headerless_help_unavailable Demo.headerless "clang" None (World [] [])
           Demo.actives).
  - vm_compute. reflexivity.
  - vm_compute. reflexivity.
Defined.

(** C10: [get_arguments] leaves the list it was given as it was, like every
    other list of the store, whether it returns or raises; the command it
    starts is that list with [-###] inserted at index 1, the other tokens
    in their order. *)
Theorem get_arguments_keeps_command (run : call → child) cwd command w argv0 :
  heap w !! command = Some argv0 →
  let w' := (get_arguments run cwd command w).2 in
  heap w' !! command = Some argv0
  ∧ (∀ r l, heap w !! r = Some l → heap w' !! r = Some l)
  ∧ spawned w'
    = spawned w ++ [Call (take 1 argv0 ++ "-###" :: drop 1 argv0) (Some cwd)]
  ∧ (∀ exe args, argv0 = exe :: args →
       spawned w' = spawned w ++ [Call (exe :: "-###" :: args) (Some cwd)]).
Proof.
  intros Hcommand w'. subst w'. rewrite get_arguments_run. cbn [snd heap spawned].
  unfold deref. rewrite Hcommand. change (default [] (Some argv0)) with argv0.
  split; [|split; [|split]].
  - rewrite lookup_app_l; [done|]. by eapply lookup_lt_Some.
  - intros r l Hr. rewrite lookup_app_l; [done|]. by eapply lookup_lt_Some.
  - done.
  - by intros exe args ->.
Qed.

Lemma get_arguments_keeps_command_witness :
  let w := World [["clang"; "-c"; "a.c"]] [] in
  let w' := (get_arguments Demo.compiler "/tmp" 0%nat w).2 in
  heap w' !! 0%nat = Some ["clang"; "-c"; "a.c"]
  ∧ (∀ r l, heap w !! r = Some l → heap w' !! r = Some l)
  ∧ spawned w'
    = spawned w ++ [Call (take 1 ["clang"; "-c"; "a.c"]
                            ++ "-###" :: drop 1 ["clang"; "-c"; "a.c"])
                      (Some "/tmp")]
  ∧ (∀ exe args, ["clang"; "-c"; "a.c"] = exe :: args →
       spawned w' = spawned w ++ [Call (exe :: "-###" :: args) (Some "/tmp")]).
Proof.
  apply (get_arguments_keeps_command Demo.compiler "/tmp" 0%nat
           (World [["clang"; "-c"; "a.c"]] []) ["clang"; "-c"; "a.c"]).
  reflexivity.
Defined.

(** * Further properties of the code *)

Local Close Scope Z_scope.

Import Str Re Py Clang HelpText Names Probe.
Import StrFacts ReFacts ParseFacts RunFacts ActiveFacts.
Import Version CommandLine Dotted.
Import QuoteFacts EntryFacts CatalogFacts ProbeFacts DottedFacts VersionFacts
  WholeFacts.

(** X1: when no name of the active set has a character that means
    something in a pattern, and the entry has no newline, [is_active] is
    the prefix rule: the entry is one of the names, or one of the names, a
    dot and more. *)
Theorem is_active_prefix_rule (actives : gset string) entry :
  forallb plain (elements actives) = true →
  no_newline entry = true →
  is_active actives entry
  = Ok (bool_decide (∃ a, a ∈ actives
                          ∧ (entry = a ∨ startswith (a +:+ ".") entry = true))).
Proof.
  intros Hplain Hentry. rewrite is_active_plain; [|intros a Ha|done].
  - f_equal. apply bool_decide_ext. unfold descends.
    setoid_rewrite orb_true_iff. by setoid_rewrite bool_decide_eq_true.
  - rewrite forallb_forall in Hplain.
    by apply Hplain, list_elem_of_In, elem_of_elements.
Qed.

Lemma is_active_prefix_rule_witness :
  is_active {["core"]} "core.NullDereference"
  = Ok (bool_decide (∃ a, a ∈ ({["core"]} : gset string)
           ∧ ("core.NullDereference" = a
              ∨ startswith (a +:+ ".") "core.NullDereference" = true))).
Proof.
  apply (is_active_prefix_rule {["core"]} "core.NullDereference");
    vm_compute; reflexivity.
Defined.

(** X2: [any] takes the names of the set in an order that Python leaves
    open; when the pattern of every name compiles, the order makes no
    difference to [is_active]. *)
Theorem is_active_any_order (actives : gset string) order entry :
  order ≡ₚ elements actives →
  forallb (λ a, bool_decide (is_Some (re_compile ("^" +:+ a +:+ "(\.|$)"))))
    order = true →
  any_match order entry = is_active actives entry.
Proof.
  intros Hperm Hall. apply any_match_order; [done|].
  apply Forall_forall. intros a Ha%list_elem_of_In.
  rewrite forallb_forall in Hall. specialize (Hall a Ha).
  by apply bool_decide_eq_true in Hall.
Qed.

Lemma is_active_any_order_witness :
  any_match (reverse (elements ({["core"; "unix"]} : gset string))) "unix.API"
  = is_active {["core"; "unix"]} "unix.API".
Proof.
  apply (is_active_any_order {["core"; "unix"]}
           (reverse (elements ({["core"; "unix"]} : gset string))) "unix.API").
  - apply reverse_Permutation.
  - vm_compute. reflexivity.
Defined.

(** X3: for names made of ordinary characters and dots, as checker names
    are, [is_active] marks every entry that the prefix rule marks: an entry
    that is one of the names, or starts with one of them and a dot. *)
Theorem is_active_dotted_names (actives : gset string) entry :
  forallb dotted_name (elements actives) = true →
  existsb (λ a, bool_decide (entry = a) || startswith (a +:+ ".") entry)
    (elements actives) = true →
  is_active actives entry = Ok true.
Proof. intros Hall Hex. by apply any_match_descends. Qed.

Lemma is_active_dotted_names_witness :
  is_active {["security.insecureAPI"]} "security.insecureAPI.rand" = Ok true.
Proof.
  apply (is_active_dotted_names {["security.insecureAPI"]}
           "security.insecureAPI.rand"); vm_compute; reflexivity.
Defined.

(** X4: [strip_quotes] makes no token longer, leaves what it returns
    unchanged when applied again, and a token that it changes comes out
    without any double quote. *)
Theorem strip_quotes_idempotent tok :
  strip_quotes (strip_quotes tok) = strip_quotes tok
  ∧ (String.length (strip_quotes tok) ≤ String.length tok)%nat
  ∧ (strip_quotes tok ≠ tok → str_all not_dquote (strip_quotes tok) = true).
Proof.
  split; [apply strip_quotes_again|]. split; [apply strip_quotes_shorter|].
  destruct (strip_quotes_inv tok) as [H | (s & e & _ & Hs & _ & ->)]; done.
Qed.

(** X5: on a token without a newline, [strip_quotes] takes off the double
    quotes around a text that has none inside, and leaves every other
    token as it is. *)
Theorem strip_quotes_without_newline tok :
  no_newline tok = true →
  (∀ s, str_all not_dquote s = true →
        tok = String dquote (s +:+ String dquote "") → strip_quotes tok = s)
  ∧ ((∀ s, str_all not_dquote s = true →
           tok ≠ String dquote (s +:+ String dquote "")) →
     strip_quotes tok = tok).
Proof. apply strip_quotes_rule. Qed.

Lemma strip_quotes_without_newline_witness :
  let tok := String dquote ("-DX=1" +:+ String dquote "") in
  (∀ s, str_all not_dquote s = true →
        tok = String dquote (s +:+ String dquote "") → strip_quotes tok = s)
  ∧ ((∀ s, str_all not_dquote s = true →
           tok ≠ String dquote (s +:+ String dquote "")) →
     strip_quotes tok = tok).
Proof.
  apply (strip_quotes_without_newline
           (String dquote ("-DX=1" +:+ String dquote ""))).
  reflexivity.
Defined.

(** X6: when the child exits with status zero and its last line is the
    command as [clang -###] prints it, each argument between double quotes
    after a blank, no argument with a double quote or a backslash inside,
    [get_arguments] returns the arguments, blanks inside them kept. *)
Theorem get_arguments_command_line (run : call → child) cwd command w ws :
  let child := run (Call (dash_hashes (deref w command)) (Some cwd)) in
  returncode child = 0%Z →
  last (readlines (stdout child)) = Some (command_line ws) →
  forallb bare ws = true →
  (get_arguments run cwd command w).1 = Ok ws.
Proof.
  intros child Hrc Hlast Hws. rewrite get_arguments_run. fold child.
  cbn [fst]. rewrite Hlast, Hrc. cbn [Z.eqb].
  by rewrite command_line_no_error, split_command_line, strip_quotes_bare.
Qed.

Lemma get_arguments_command_line_witness :
  (get_arguments Cases.plain_line "." 0%nat (World [["clang"; "a.c"]] [])).1
  = Ok ["/usr/bin/clang"; "-cc1"; "-D"; "A B"; "a.c"].
Proof.
  apply (get_arguments_command_line Cases.plain_line "." 0%nat
           (World [["clang"; "a.c"]] [])
           ["/usr/bin/clang"; "-cc1"; "-D"; "A B"; "a.c"]);
    vm_compute; reflexivity.
Defined.

(** X7: when the last line stops inside a quoted argument, the closing
    quote missing, [get_arguments] lets the [ValueError] of [shlex.split]
    out, although the exit status is zero. *)
Theorem get_arguments_unclosed_quote (run : call → child) cwd command w ws a :
  let child := run (Call (dash_hashes (deref w command)) (Some cwd)) in
  returncode child = 0%Z →
  last (readlines (stdout child)) = Some (cut_line ws a) →
  forallb bare ws = true → bare a = true →
  (get_arguments run cwd command w).1 = Raise ShlexError.
Proof.
  intros child Hrc Hlast Hws Ha. rewrite get_arguments_run. fold child.
  cbn [fst]. rewrite Hlast, Hrc. cbn [Z.eqb].
  by rewrite cut_line_no_error, split_cut_line.
Qed.

Lemma get_arguments_unclosed_quote_witness :
  (get_arguments Cases.cut "." 0%nat (World [["clang"; "a.c"]] [])).1
  = Raise ShlexError.
Proof.
  apply (get_arguments_unclosed_quote Cases.cut "." 0%nat
           (World [["clang"; "a.c"]] []) ["clang"; "-cc1"] "-o a");
    vm_compute; reflexivity.
Defined.

(** X8: [_get_active_checkers] asks about the languages one after the
    other and stops at the first whose command cannot be reconstructed: the
    exception of [get_arguments] comes out unchanged, and no process is
    started for the languages after it. *)
Theorem probe_stops_at_first_failure (run : call → child) clang plugins w
    before language rest e :
  let load :=
    concat ((λ plugin, ["-Xclang"; "-load"; "-Xclang"; plugin]) <$> plugins) in
  let invocation l := [clang; "--analyze"] ++ load ++ ["-x"; l; "-"] in
  let started l :=
    Call ([clang; "-###"; "--analyze"] ++ load ++ ["-x"; l; "-"]) (Some ".") in
  languages = before ++ language :: rest →
  forallb (λ l, match reconstruct run "." (invocation l) with
                | Ok _ => true
                | Raise _ => false
                end) before = true →
  reconstruct run "." (invocation language) = Raise e →
  let probe := _get_active_checkers run clang plugins w in
  probe.1 = Raise e
  ∧ spawned probe.2 = spawned w ++ (started <$> (before ++ [language])).
Proof.
  intros load invocation started Hlangs Hdone Hfail probe. subst probe.
  unfold _get_active_checkers, trace, mbind, M_bind. rewrite Hlangs.
  assert (Forall (λ l, ∃ ts, reconstruct run "." (probe_command clang plugins l)
                               = Ok ts) before) as Hok.
  { apply Forall_forall. intros l Hl%list_elem_of_In.
    rewrite forallb_forall in Hdone. specialize (Hdone l Hl).
    change (probe_command clang plugins l) with (invocation l).
    destruct (reconstruct run "." (invocation l)); [by eauto|done]. }
  pose proof (for_each_checkers_fails run clang plugins before language rest e w
                Hok Hfail) as H.
  cbv zeta in H. destruct H as [H1 H2].
  destruct (for_each _ _ _) as [[found|e'] w']; cbn [fst snd] in *; [done|].
  injection H1 as ->. split; [done|]. by rewrite H2.
Qed.

Lemma probe_stops_at_first_failure_witness :
  let probe := _get_active_checkers Cases.no_cxx "clang" [] (World [] []) in
  probe.1 = Raise EmptyOutput
  ∧ spawned probe.2
    = [Call ["clang"; "-###"; "--analyze"; "-x"; "c"; "-"] (Some ".");
       Call ["clang"; "-###"; "--analyze"; "-x"; "c++"; "-"] (Some ".")].
Proof.
  apply (probe_stops_at_first_failure Cases.no_cxx "clang" [] (World [] [])
           ["c"] "c++" ["objective-c"; "objective-c++"] EmptyOutput);
    vm_compute; reflexivity.
Defined.

(** X9: when the probe raises, [get_checkers] raises the same exception
    and leaves things as the probe left them: the process that prints the
    help text is not started. *)
Theorem get_checkers_probe_failure (run : call → child) clang plugins w e :
  let probe := _get_active_checkers run clang (default [] plugins) w in
  probe.1 = Raise e →
  get_checkers run clang plugins w = (Raise e, probe.2).
Proof.
  intros probe Hprobe. rewrite get_checkers_run. fold probe.
  destruct probe as [[actives|e'] w1]; cbn [fst snd] in *; [done|].
  by injection Hprobe as ->.
Qed.

Lemma get_checkers_probe_failure_witness :
  get_checkers Cases.no_cxx "clang" None (World [] [])
  = (Raise EmptyOutput,
     (_get_active_checkers Cases.no_cxx "clang" [] (World [] [])).2).
Proof.
  apply (get_checkers_probe_failure Cases.no_cxx "clang" None (World [] [])
           EmptyOutput).
  vm_compute. reflexivity.
Defined.

(** X10: the catalog has an entry for exactly the names that the parser
    yields; the description of a name is the one of its last pair, and its
    status is what [is_active] says of the name. *)
Theorem catalog_last_description actives stream c :
  catalog actives stream = Ok c →
  (∀ k, is_Some (c !! k) ↔ k ∈ (parse_checkers stream).*1)
  ∧ (∀ before k v after,
       parse_checkers stream = before ++ (k, v) :: after → k ∉ after.*1 →
       ∃ b, is_active actives k = Ok b ∧ c !! k = Some (v, b)).
Proof.
  unfold catalog. intros [Hother Hlast]%catalog_from_lookup. split; [|done].
  intros k. split.
  - intros Hk. destruct (decide (k ∈ (parse_checkers stream).*1)); [done|].
    rewrite Hother, lookup_empty in Hk by done. by destruct Hk.
  - intros (before & v & after & Hp & Hafter)%last_occurrence.
    destruct (Hlast _ _ _ _ Hp Hafter) as (b & _ & ->). eauto.
Qed.

Lemma catalog_last_description_witness :
  (∀ k, is_Some (Demo.catalog !! k) ↔
        k ∈ (parse_checkers
               (readlines (help_text Demo.preamble Demo.entries))).*1)
  ∧ (∀ before k v after,
       parse_checkers (readlines (help_text Demo.preamble Demo.entries))
       = before ++ (k, v) :: after → k ∉ after.*1 →
       ∃ b, is_active Demo.actives k = Ok b
            ∧ Demo.catalog !! k = Some (v, b)).
Proof.
  apply (catalog_last_description Demo.actives
           (readlines (help_text Demo.preamble Demo.entries)) Demo.catalog).
  vm_compute. reflexivity.
Defined.

(** X11: whatever the stream, no name that [parse_checkers] yields has
    white space in it, and so no name of a catalog has. *)
Theorem parse_checkers_names_no_space stream :
  Forall (λ p, str_all not_space p.1 = true) (parse_checkers stream)
  ∧ (∀ actives c k, catalog actives stream = Ok c → is_Some (c !! k) →
       str_all not_space k = true).
Proof.
  assert (Forall (λ p, str_all not_space p.1 = true) (parse_checkers stream))
    as Hnames by (by apply find_entries_names).
  split; [done|]. intros actives c k Hc Hk.
  apply catalog_from_lookup in Hc as [Hother _].
  destruct (decide (k ∈ (parse_checkers stream).*1)) as [Hin | Hout].
  - apply list_elem_of_fmap in Hin as (p & -> & Hp).
    rewrite Forall_forall in Hnames. by apply Hnames.
  - rewrite Hother, lookup_empty in Hk by done. by destruct Hk.
Qed.

(** X12: the lines before the first line that starts with [CHECKERS:] have
    no effect on what [parse_checkers] yields, whatever they look like. *)
Theorem parse_checkers_before_header before stream :
  forallb (λ line, negb (startswith "CHECKERS:" line)) before = true →
  parse_checkers (before ++ stream) = parse_checkers stream.
Proof.
  intros Hbefore. unfold parse_checkers. by rewrite find_header_before.
Qed.

Lemma parse_checkers_before_header_witness :
  parse_checkers (["  core.Fake  Not a checker" +:+ nl; "USAGE:" +:+ nl]
                    ++ readlines Demo.scenario)
  = parse_checkers (readlines Demo.scenario).
Proof.
  apply (parse_checkers_before_header
           ["  core.Fake  Not a checker" +:+ nl; "USAGE:" +:+ nl]
           (readlines Demo.scenario)).
  vm_compute. reflexivity.
Defined.

(** X13: [parse_checkers] yields at most one pair for each line after the
    header line, so fewer pairs than the stream has lines. *)
Theorem parse_checkers_one_per_line stream :
  length (parse_checkers stream) ≤ pred (length stream)
  ∧ length (parse_checkers stream) ≤ length (find_header stream).
Proof.
  unfold parse_checkers.
  pose proof (find_entries_length None (find_header stream)).
  pose proof (find_header_length stream). lia.
Qed.

(** X14: a name on a line of its own that no description line follows
    yields nothing: after well-formed entries, names at the end of the
    help text, each on its own line, add no pair. *)
Theorem parse_checkers_trailing_names preamble es ns :
  forallb preamble_line preamble = true →
  forallb well_formed es = true →
  forallb is_name ns = true →
  parse_checkers
    (readlines (help_text preamble es +:+ unlines ((λ n, "  " +:+ n) <$> ns)))
  = (λ e, (entry_name e, entry_description e)) <$> es.
Proof.
  intros Hpre Hes Hns. unfold parse_checkers, help_text.
  rewrite !str_app_assoc. rewrite find_header_text by done.
  rewrite find_entries_body by done.
  rewrite <-(str_app_nil_r (unlines _)), readlines_unlines.
  2:{ rewrite forallb_forall. intros l (n & -> & Hn)%list_elem_of_In%list_elem_of_fmap.
      rewrite forallb_forall in Hns.
      apply list_elem_of_In, Hns, name_parts in Hn as (_ & Hn & _).
      rewrite no_newline_app. by rewrite (not_space_no_newline _ Hn). }
  rewrite <-list_fmap_compose. unfold compose. cbn [readlines].
  rewrite app_nil_r.
  rewrite (find_entries_bare_names None ns Hns). by rewrite app_nil_r.
Qed.

Lemma parse_checkers_trailing_names_witness :
  parse_checkers
    (readlines (help_text Demo.preamble Demo.entries
                  +:+ unlines ((λ n, "  " +:+ n)
                                 <$> ["alpha.core.A"; "alpha.core.B"])))
  = (λ e, (entry_name e, entry_description e)) <$> Demo.entries.
Proof.
  apply (parse_checkers_trailing_names Demo.preamble Demo.entries
           ["alpha.core.A"; "alpha.core.B"]); vm_compute; reflexivity.
Defined.

(** X15: a line of text indented by more than two blanks, when no name
    waits for its description, is taken by the last branch as an entry
    with the empty name. *)
Theorem parse_checkers_deep_text preamble es sep d :
  forallb preamble_line preamble = true →
  forallb well_formed es = true →
  nonempty sep = true → is_blank sep = true →
  nonempty d = true → is_text d = true →
  parse_checkers
    (readlines (help_text preamble es +:+ "  " +:+ sep +:+ d +:+ nl))
  = ((λ e, (entry_name e, entry_description e)) <$> es) ++ [("", d)].
Proof.
  intros Hpre Hes Hsne Hsep Hdne Hd. unfold parse_checkers, help_text.
  rewrite !str_app_assoc. rewrite find_header_text by done.
  rewrite find_entries_body by done. f_equal.
  pose proof (text_parts _ Hd) as (Hdn & _).
  apply andb_true_iff in Hsep as [Hsp Hsn].
  replace ("  " +:+ sep +:+ d +:+ nl)
    with (("  " +:+ sep +:+ d) +:+ String newline "")
    by (by rewrite !str_app_assoc).
  rewrite readlines_line by (by rewrite !no_newline_app, Hsn, Hdn).
  cbn [readlines].
  replace (("  " +:+ sep +:+ d) +:+ String newline "")
    with ("  " +:+ sep +:+ d +:+ nl) by (by rewrite !str_app_assoc).
  by rewrite find_entries_deep_text
    by (done || by unfold is_blank; rewrite Hsp, Hsn).
Qed.

Lemma parse_checkers_deep_text_witness :
  parse_checkers
    (readlines (help_text Demo.preamble Demo.entries
                  +:+ "  " +:+ "      " +:+ "and more text" +:+ nl))
  = ((λ e, (entry_name e, entry_description e)) <$> Demo.entries)
      ++ [("", "and more text")].
Proof.
  apply (parse_checkers_deep_text Demo.preamble Demo.entries "      "
           "and more text"); vm_compute; reflexivity.
Defined.

(** X16: [get_version] returns a line exactly when the child exits with
    status zero, printed ASCII bytes only and at least one of them; the
    line is the output up to its first line boundary, the boundary left
    out. *)
Theorem get_version_first_line (run : call → child) cmd w line :
  let child := run (Call [cmd; "-v"] None) in
  (get_version run cmd w).1 = inr line ↔
    returncode child = 0%Z
    ∧ str_all is_ascii (stdout child) = true
    ∧ stdout child ≠ ""
    ∧ str_all not_linebreak line = true
    ∧ ∃ rest, stdout child = line +:+ rest ∧ line_end rest.
Proof.
  intros child. unfold get_version, trace. fold child.
  destruct (returncode child =? 0)%Z eqn:Hrc.
  2:{ apply Z.eqb_neq in Hrc. split; [done|]. by intros [? _]. }
  apply Z.eqb_eq in Hrc.
  destruct (str_all is_ascii (stdout child)) eqn:Hascii.
  2:{ split; [done|]. by intros (_ & ? & _). }
  destruct (splitlines (stdout child)) as [|l ls] eqn:Hlines; cbn [fst].
  - apply splitlines_nil in Hlines. split; [done|]. by intros (_ & _ & ? & _).
  - pose proof (splitlines_first _ _ _ Hlines) as [Hl (rest & Hout & Hrest)].
    split.
    + intros [= <-]. repeat split; try done.
      * intros E. by rewrite E in Hlines.
      * eauto.
    + intros (_ & _ & Hne & Hline & rest' & Hout' & Hrest').
      destruct (splitlines_head line rest' Hline Hrest') as [ls' Hls'].
      { by rewrite <-Hout'. }
      rewrite <-Hout', Hlines in Hls'. by injection Hls' as -> _.
Qed.

Lemma get_version_first_line_witness :
  (get_version Cases.versioned "clang" (World [] [])).1
  = inr "clang version 3.5.0 (tags/RELEASE_350/final)".
Proof.
  apply (get_version_first_line Cases.versioned "clang" (World [] [])
           "clang version 3.5.0 (tags/RELEASE_350/final)").
  split; [reflexivity|]. split; [reflexivity|]. split; [discriminate|].
  split; [reflexivity|].
  exists (String newline ("Target: x86_64-unknown-linux-gnu"
                            +:+ String newline "")).
  split; [reflexivity | reflexivity].
Defined.

(** X17: [get_version] starts one process, the compiler with [-v]; it
    raises [CalledProcessError], with the status and the output, when the
    status is not zero, whatever was printed; with status zero it raises
    [UnicodeDecodeError] when a byte above 127 was printed, on the first
    line or after it, and [IndexError] when nothing was printed. *)
Theorem get_version_failures (run : call → child) cmd w :
  let child := run (Call [cmd; "-v"] None) in
  let result := get_version run cmd w in
  result.2 = World (heap w) (spawned w ++ [Call [cmd; "-v"] None])
  ∧ (returncode child ≠ 0%Z →
     result.1 = inl (CalledProcessError (returncode child) [cmd; "-v"]
                       (stdout child)))
  ∧ (returncode child = 0%Z → str_all is_ascii (stdout child) = false →
     result.1 = inl UnicodeDecodeError)
  ∧ (returncode child = 0%Z → stdout child = "" → result.1 = inl IndexError).
Proof.
  intros child result. subst result. unfold get_version, trace. fold child.
  split; [|split; [|split]].
  - destruct (returncode child =? 0)%Z; [|done].
    destruct (str_all is_ascii _); [|done]. by destruct (splitlines _).
  - intros Hrc%Z.eqb_neq. by rewrite Hrc.
  - intros -> ->. done.
  - intros -> ->. done.
Qed.

Lemma get_version_failures_witness :
  (get_version Cases.failing "clang" (World [] [])).1
  = inl (CalledProcessError 127 ["clang"; "-v"] "clang: not found").
Proof.
  apply (get_version_failures Cases.failing "clang" (World [] [])).
  discriminate.
Defined.

(** X18: with a compiler that, for each of the four languages, exits with
    status zero after a last line of quoted arguments, and that prints
    well-formed help text with at least one entry and exits with status
    zero, [get_checkers] returns a catalog with exactly the names of the
    entries; when the names are all different and the active names have no
    pattern character, each name has its description, and is active
    exactly when it is an active name or starts with one and a dot. *)
Theorem get_checkers_whole (run : call → child) clang plugins w
    (ws : string → list string) preamble es :
  let plugins' := default [] plugins in
  let probe l :=
    run (Call ([clang; "-###"; "--analyze"]
                 ++ concat ((λ plugin, ["-Xclang"; "-load"; "-Xclang"; plugin])
                              <$> plugins')
                 ++ ["-x"; l; "-"]) (Some ".")) in
  let help :=
    run (Call ([clang; "-cc1"]
                 ++ concat ((λ plugin, ["-load"; plugin]) <$> plugins')
                 ++ ["-analyzer-checker-help"]) None) in
  let actives : gset string :=
    list_to_set (omap checker_of (languages ≫= ws)) in
  forallb (λ l, (returncode (probe l) =? 0)%Z
                && bool_decide (last (readlines (stdout (probe l)))
                                = Some (command_line (ws l)))
                && forallb bare (ws l)) languages = true →
  forallb plain (elements actives) = true →
  returncode help = 0%Z →
  stdout help = help_text preamble es →
  forallb preamble_line preamble = true →
  forallb well_formed es = true →
  es ≠ [] →
  NoDup (entry_name <$> es) →
  ∃ c, (get_checkers run clang plugins w).1 = Ok c
       ∧ (∀ k, is_Some (c !! k) ↔ k ∈ entry_name <$> es)
       ∧ (∀ e, e ∈ es →
            c !! entry_name e
            = Some (entry_description e,
                    bool_decide
                      (∃ a, a ∈ actives
                            ∧ (entry_name e = a
                               ∨ startswith (a +:+ ".") (entry_name e)
                                 = true)))).
Proof.
  intros plugins' probe help actives Hprobe Hplain Hrc Hout Hpre Hes Hne Hdup.
  (* the probe *)
  assert (∀ l, l ∈ languages →
               reconstruct run "." (probe_command clang plugins' l) = Ok (ws l))
    as Hrec.
  { intros l Hl%list_elem_of_In. rewrite forallb_forall in Hprobe.
    apply Hprobe in Hl.
    apply andb_true_iff in Hl as [[Hl1%Z.eqb_eq Hl2%bool_decide_eq_true]
                                    %andb_true_iff Hl3].
    by apply reconstruct_command_line. }
  rewrite get_checkers_run. fold plugins'.
  rewrite (probe_run run clang plugins' w (ws "c") (ws "c++")
             (ws "objective-c") (ws "objective-c++"));
    [|apply Hrec; unfold languages; set_solver..].
  replace (list_to_set (omap checker_of (ws "c"))
           ∪ list_to_set (omap checker_of (ws "c++"))
           ∪ list_to_set (omap checker_of (ws "objective-c"))
           ∪ list_to_set (omap checker_of (ws "objective-c++")))
    with actives.
  2:{ subst actives. unfold languages. cbn [mbind list_bind concat fmap list_fmap].
      rewrite app_nil_r, !omap_app, !list_to_set_app_L.
      by rewrite !(assoc_L (∪)). }
  fold help. rewrite Hout, Hrc. cbn [Z.eqb andb fst].
  (* the catalog *)
  pose proof (parse_help_text preamble es Hpre Hes) as Hparse.
  assert (∀ e, e ∈ es →
               is_active actives (entry_name e)
               = Ok (bool_decide (∃ a, a ∈ actives
                       ∧ (entry_name e = a
                          ∨ startswith (a +:+ ".") (entry_name e) = true))))
    as Hactive.
  { intros e He%list_elem_of_In. rewrite forallb_forall in Hes.
    apply Hes, well_formed_name, name_parts in He as (_ & Hn & _).
    rewrite is_active_plain.
    - f_equal. apply bool_decide_ext. unfold descends.
      setoid_rewrite orb_true_iff. by setoid_rewrite bool_decide_eq_true.
    - intros a Ha. rewrite forallb_forall in Hplain.
      by apply Hplain, list_elem_of_In, elem_of_elements.
    - by apply not_space_no_newline. }
  destruct (catalog_from_ok actives (parse_checkers
              (readlines (help_text preamble es))) ∅) as [c Hc].
  { rewrite Hparse. apply Forall_fmap, Forall_forall. intros e He. simpl.
    rewrite (Hactive e He). eauto. }
  unfold catalog. rewrite Hc.
  pose proof (catalog_from_lookup _ _ _ _ Hc) as [Hother Hlast].
  rewrite Hparse in Hother, Hlast.
  assert ((entry_name <$> es)
          = ((λ e, (entry_name e, entry_description e)) <$> es).*1) as Hnames.
  { by rewrite <-list_fmap_compose. }
  assert (∀ e, e ∈ es →
               c !! entry_name e
               = Some (entry_description e,
                       bool_decide (∃ a, a ∈ actives
                         ∧ (entry_name e = a
                            ∨ startswith (a +:+ ".") (entry_name e) = true))))
    as Hlookup.
  { intros e He. apply list_elem_of_split in He as (before & after & ->).
    rewrite fmap_app, fmap_cons in Hdup.
    apply NoDup_app in Hdup as (_ & _ & Hdup). apply NoDup_cons in Hdup as [Hout' _].
    destruct (Hlast ((λ e, (entry_name e, entry_description e)) <$> before)
                (entry_name e) (entry_description e)
                ((λ e, (entry_name e, entry_description e)) <$> after))
      as (b & Hb & ->).
    - by rewrite fmap_app, fmap_cons.
    - by rewrite <-list_fmap_compose.
    - rewrite Hactive in Hb by set_solver. by injection Hb as <-. }
  assert (size c ≠ 0) as Hsize.
  { destruct es as [|e es]; [done|].
    intros Hempty%map_size_empty_iff.
    specialize (Hlookup e ltac:(set_solver)). by rewrite Hempty in Hlookup. }
  apply Nat.eqb_neq in Hsize. rewrite Hsize. cbn [negb].
  exists c. split; [done|]. split; [|done].
  intros k. rewrite Hnames. split.
  - intros Hk. destruct (decide (k ∈ ((λ e, (entry_name e, entry_description e))
                                        <$> es).*1)); [done|].
    rewrite Hother, lookup_empty in Hk by done. by destruct Hk.
  - rewrite <-Hnames. intros (e & -> & He)%list_elem_of_fmap.
    rewrite (Hlookup e He). eauto.
Qed.

Lemma get_checkers_whole_witness :
  ∃ c, (get_checkers Demo.compiler "clang" None (World [] [])).1 = Ok c
       ∧ (∀ k, is_Some (c !! k) ↔ k ∈ entry_name <$> Demo.entries)
       ∧ (∀ e, e ∈ Demo.entries →
            c !! entry_name e
            = Some (entry_description e,
                    bool_decide
                      (∃ a, a ∈ (list_to_set
                                   (omap checker_of
                                      (languages ≫= λ _, Demo.probe_tokens))
                                 : gset string)
                            ∧ (entry_name e = a
                               ∨ startswith (a +:+ ".") (entry_name e)
                                 = true)))).
Proof.
  apply (get_checkers_whole Demo.compiler "clang" None (World [] [])
           (λ _, Demo.probe_tokens) Demo.preamble Demo.entries);
    try (vm_compute; reflexivity).
  - discriminate.
  - apply (bool_decide_eq_true_1 (NoDup (entry_name <$> Demo.entries))).
    vm_compute. reflexivity.
Defined.
